(** * LingoPulse: the conversation analysis service

    A shallow embedding of [LingoPulse/src/services/AnalysisService.js]
    (class [AnalysisService]) and the properties of its topic, sentiment
    and key-point analyses and of its intent detection.

    Conventions of the embedding.
    - A JavaScript string is its sequence of UTF-16 code units.
    - A JavaScript number is an exact rational, or one of NaN, +Infinity,
      -Infinity.  Rounding of individual IEEE operations, overflow of a
      finite result to an infinity and the sign of zero are not
      represented; the properties are stated for the numbers the service
      computes with (scores between -1 and 1, counts, lengths).
    - An object created by [{}] and used as a map is the finite map of its
      own properties; the properties it inherits from [Object.prototype]
      are listed in [inheritedKeys].
    - A property that may be missing from a message is an [option]; [None]
      is [undefined].
    - A function that can raise returns an [outcome]. *)

From Stdlib Require Import QArith Qround Qabs Qminmax Lqa.
From stdpp Require Import base option list gmap sets strings sorting.

#[local] Set Warnings "-clear-no-such-hyp".

(** ** Strings *)

Definition jsstring := list N.

(** Source literals are written as Rocq strings (UTF-8 bytes) and decoded
    to UTF-16 code units. *)
Fixpoint utf8_points (bs : list N) : list N :=
  match bs with
  | [] => []
  | b0 :: r0 =>
    if (b0 <? 0x80)%N then b0 :: utf8_points r0
    else if (b0 <? 0xE0)%N then
      match r0 with
      | b1 :: r1 =>
        N.lor (N.shiftl (N.land b0 0x1F) 6) (N.land b1 0x3F) :: utf8_points r1
      | _ => []
      end
    else if (b0 <? 0xF0)%N then
      match r0 with
      | b1 :: b2 :: r2 =>
        N.lor (N.shiftl (N.land b0 0x0F) 12)
              (N.lor (N.shiftl (N.land b1 0x3F) 6) (N.land b2 0x3F))
          :: utf8_points r2
      | _ => []
      end
    else
      match r0 with
      | b1 :: b2 :: b3 :: r3 =>
        N.lor (N.shiftl (N.land b0 0x07) 18)
              (N.lor (N.shiftl (N.land b1 0x3F) 12)
                     (N.lor (N.shiftl (N.land b2 0x3F) 6) (N.land b3 0x3F)))
          :: utf8_points r3
      | _ => []
      end
  end.

Definition utf16_units (cp : N) : list N :=
  if (cp <? 0x10000)%N then [cp]
  else
    let v := (cp - 0x10000)%N in
    [(0xD800 + N.shiftr v 10)%N; (0xDC00 + N.land v 0x3FF)%N].

Fixpoint string_bytes (s : string) : list N :=
  match s with
  | EmptyString => []
  | String a r => Ascii.N_of_ascii a :: string_bytes r
  end.

Definition utf16 (s : string) : jsstring :=
  concat (map utf16_units (utf8_points (string_bytes s))).

(** [/\s/]: the code units that the regular expression class [\s] accepts. *)
Definition isWhiteSpace (c : N) : bool :=
  ((9 <=? c) && (c <=? 13) || (c =? 32) || (c =? 0xA0) || (c =? 0x1680)
   || (0x2000 <=? c) && (c <=? 0x200A) || (c =? 0x2028) || (c =? 0x2029)
   || (c =? 0x202F) || (c =? 0x205F) || (c =? 0x3000) || (c =? 0xFEFF))%N.

(** [s.split(/\s+/)]: the pieces between maximal runs of white space.  A
    string that starts (ends) with white space yields a leading (trailing)
    empty piece, and the empty string yields one empty piece. *)
Fixpoint split_go (piece : jsstring) (inRun : bool) (s : jsstring)
  : list jsstring :=
  match s with
  | [] => [piece]
  | c :: r =>
    if isWhiteSpace c then
      if inRun then split_go piece true r else piece :: split_go [] true r
    else split_go (piece ++ [c]) false r
  end.

Definition splitWhitespace (s : jsstring) : list jsstring := split_go [] false s.

(** [s.startsWith(p)] and [s.includes(p)]. *)
Fixpoint startsWith (s p : jsstring) {struct p} : bool :=
  match p, s with
  | [], _ => true
  | _ :: _, [] => false
  | a :: p', b :: s' => (a =? b)%N && startsWith s' p'
  end.

Fixpoint includes (s p : jsstring) : bool :=
  startsWith s p ||
  match s with
  | [] => false
  | _ :: s' => includes s' p
  end.

(** [s.substring(0, n)]. *)
Definition substring0 (n : nat) (s : jsstring) : jsstring := take n s.

(** [parts.join(sep)] on an array whose [undefined] elements print as the
    empty string. *)
Fixpoint join (sep : jsstring) (parts : list (option jsstring)) : jsstring :=
  match parts with
  | [] => []
  | [p] => default [] p
  | p :: rest => default [] p ++ sep ++ join sep rest
  end.

(** [String.prototype.toLowerCase] restricted to Basic Latin; the service
    itself is stated for an arbitrary lower-casing function. *)
Definition asciiLowerCase (s : jsstring) : jsstring :=
  map (fun c => if ((65 <=? c) && (c <=? 90))%N then (c + 32)%N else c) s.

(** ** Numbers *)

Inductive number := Num (q : Q) | PosInf | NegInf | NaN.

Definition Qltb (x y : Q) : bool := negb (Qle_bool y x).

Definition jsneg (a : number) : number :=
  match a with
  | Num x => Num (Qred (- x))
  | PosInf => NegInf
  | NegInf => PosInf
  | NaN => NaN
  end.

Definition jsadd (a b : number) : number :=
  match a, b with
  | NaN, _ | _, NaN => NaN
  | Num x, Num y => Num (Qred (x + y))
  | PosInf, NegInf | NegInf, PosInf => NaN
  | PosInf, _ | _, PosInf => PosInf
  | NegInf, _ | _, NegInf => NegInf
  end.

Definition jssub (a b : number) : number := jsadd a (jsneg b).

Definition signedInf (c : comparison) (pos : number) : number :=
  match c with
  | Eq => NaN
  | Gt => pos
  | Lt => jsneg pos
  end.

Definition jsmul (a b : number) : number :=
  match a, b with
  | NaN, _ | _, NaN => NaN
  | Num x, Num y => Num (Qred (x * y))
  | Num x, inf | inf, Num x => signedInf (x ?= 0)%Q inf
  | PosInf, PosInf | NegInf, NegInf => PosInf
  | PosInf, NegInf | NegInf, PosInf => NegInf
  end.

Definition jsdiv (a b : number) : number :=
  match a, b with
  | NaN, _ | _, NaN => NaN
  | Num x, Num y =>
    if Qeq_bool y 0 then signedInf (x ?= 0)%Q PosInf else Num (Qred (x / y))
  | Num _, _ => Num 0
  | inf, Num y => if Qltb y 0 then jsneg inf else inf
  | _, _ => NaN
  end.

(** [a > b] and [a < b]; every comparison with NaN is false. *)
Definition jsgt (a b : number) : bool :=
  match a, b with
  | NaN, _ | _, NaN => false
  | Num x, Num y => Qltb y x
  | PosInf, PosInf | NegInf, _ | _, PosInf => false
  | PosInf, _ | _, NegInf => true
  end.

Definition jslt (a b : number) : bool := jsgt b a.

Definition Math_max (a b : number) : number :=
  match a, b with
  | NaN, _ | _, NaN => NaN
  | _, _ => if jsgt b a then b else a
  end.

Definition Math_min (a b : number) : number :=
  match a, b with
  | NaN, _ | _, NaN => NaN
  | _, _ => if jslt b a then b else a
  end.

Definition Math_abs (a : number) : number :=
  match a with
  | Num x => Num (Qred (Qabs x))
  | PosInf | NegInf => PosInf
  | NaN => NaN
  end.

(** [Math.round]: the nearest integer, halves going up. *)
Definition Math_round (a : number) : number :=
  match a with
  | Num x => Num (inject_Z (Qfloor (x + (1 # 2))))
  | other => other
  end.

Definition ofNat (n : nat) : number := Num (inject_Z (Z.of_nat n)).

Declare Scope js_scope.
Delimit Scope js_scope with js.
Bind Scope js_scope with number.
Infix "+" := jsadd : js_scope.
Infix "-" := jssub : js_scope.
Infix "*" := jsmul : js_scope.
Infix "/" := jsdiv : js_scope.
Infix ">?" := jsgt (at level 70, no associativity) : js_scope.
Infix "<?" := jslt (at level 70, no associativity) : js_scope.

#[global] Arguments jsadd : simpl never.
#[global] Arguments jssub : simpl never.
#[global] Arguments jsmul : simpl never.
#[global] Arguments jsdiv : simpl never.
#[global] Arguments jsgt : simpl never.
#[global] Arguments jslt : simpl never.
#[global] Arguments Math_max : simpl never.
#[global] Arguments Math_min : simpl never.
#[global] Arguments Math_abs : simpl never.
#[global] Arguments Math_round : simpl never.
#[global] Arguments substring0 : simpl never.
#[global] Arguments utf16 : simpl never.

(** ** Exceptions *)

Inductive error := TypeError.

Inductive outcome (A : Type) := Ok (a : A) | Throw (e : error).
Arguments Ok {A} a.
Arguments Throw {A} e.

#[global] Instance outcome_ret : MRet outcome := fun A a => Ok a.
#[global] Instance outcome_bind : MBind outcome := fun A B f m =>
  match m with
  | Ok a => f a
  | Throw e => Throw e
  end.

#[global] Instance outcome_fmap : FMap outcome := fun A B f m =>
  match m with
  | Ok a => Ok (f a)
  | Throw e => Throw e
  end.

Definition isOk {A} (o : outcome A) : bool :=
  match o with Ok _ => true | Throw _ => false end.

(** A method call or property read on a value: [undefined] as the receiver
    raises a [TypeError]. *)
Definition receiver {A} (v : option A) : outcome A :=
  match v with
  | Some a => Ok a
  | None => Throw TypeError
  end.

(** [array.forEach((x, index) => ...)] with the callback's effect on the
    enclosing variables threaded as a state. *)
Fixpoint forEach {S A} (f : S -> A -> nat -> outcome S) (l : list A)
    (index : nat) (s : S) : outcome S :=
  match l with
  | [] => Ok s
  | x :: r => s' ← f s x index; forEach f r (Datatypes.S index) s'
  end.

(** [array.reduce(f)] without an initial value raises on the empty array. *)
Definition reduce1 {A} (f : A -> A -> A) (l : list A) : outcome A :=
  match l with
  | [] => Throw TypeError
  | x :: r => Ok (fold_left f r x)
  end.

(** ** Host operations and input *)

(** [String.prototype.toLowerCase] is supplied by the host. *)
Class Host := { toLowerCase : jsstring -> jsstring }.

(** A turn of the conversation; a missing property is [None]. *)
Record message := Message {
  speaker : option jsstring;
  content : option jsstring;
  timestamp : option jsstring
}.

(** [array.slice(start, stop)]. *)
Definition slice {A} (start stop : nat) (l : list A) : list A :=
  take (stop - start) (drop start l).

(** [array.filter(p)] where the predicate may raise. *)
Fixpoint filterM {A} (p : A -> outcome bool) (l : list A) : outcome (list A) :=
  match l with
  | [] => Ok []
  | x :: r =>
    keep ← p x;
    rest ← filterM p r;
    Ok (if keep : bool then x :: rest else rest)
  end.

(** [array.sort(compare)]: a stable sort; [swap a b] says that
    [compare(a, b)] is positive, that is, [b] goes first. *)
Fixpoint insertSorted {A} (swap : A -> A -> bool) (x : A) (l : list A) : list A :=
  match l with
  | [] => [x]
  | y :: r => if swap x y then y :: insertSorted swap x r else x :: y :: r
  end.

Definition sortWith {A} (swap : A -> A -> bool) (l : list A) : list A :=
  foldr (insertSorted swap) [] l.

(** ** The lexicon tables of the constructor *)

Definition topicPatterns : list (jsstring * list jsstring) :=
  [ (utf16 "业务讨论", map utf16 ["业务"; "项目"; "市场"; "客户"; "销售"; "目标"]);
    (utf16 "技术交流", map utf16 ["代码"; "系统"; "架构"; "技术"; "开发"; "实现"]);
    (utf16 "团队协作", map utf16 ["团队"; "合作"; "协调"; "沟通"; "配合"; "协作"]);
    (utf16 "决策规划", map utf16 ["决定"; "选择"; "规划"; "策略"; "方案"; "建议"]);
    (utf16 "问题解决", map utf16 ["问题"; "困难"; "挑战"; "解决"; "处理"; "方案"]) ].

Definition sentimentIndicators : list (jsstring * list jsstring) :=
  [ (utf16 "positive", map utf16 ["很好"; "优秀"; "支持"; "同意"; "满意"; "积极"; "乐观"]);
    (utf16 "negative", map utf16 ["问题"; "困难"; "担心"; "不满意"; "消极"; "反对"; "批评"]);
    (utf16 "neutral", map utf16 ["了解"; "明白"; "讨论"; "分析"; "考虑"; "评估"]) ].

Definition intentKeywords : list (jsstring * list jsstring) :=
  [ (utf16 "提案建议", map utf16 ["建议"; "推荐"; "提议"; "提出"; "考虑"]);
    (utf16 "信息询问", map utf16 ["请问"; "知道"; "了解"; "询问"; "查询"]);
    (utf16 "决策判断", map utf16 ["决定"; "选择"; "确定"; "决定"; "决议"]);
    (utf16 "协调合作", map utf16 ["协调"; "配合"; "合作"; "协作"; "配合"]);
    (utf16 "问题解决", map utf16 ["解决"; "处理"; "解决"; "应对"; "解决"]) ].

(** The label [detectTopics] falls back to. *)
Definition fallbackTopic : jsstring := utf16 "一般讨论".

(** ** Helper methods *)

Definition detectTopics (content : jsstring) : list jsstring :=
  let detectedTopics :=
    map fst (filter (fun entry => existsb (includes content) entry.2 = true)
                    topicPatterns) in
  if (0 <? length detectedTopics)%nat then detectedTopics else [fallbackTopic].

(** The loop of [analyzeSentimentScore] over [Object.entries] of a table. *)
Definition scoreEntries (table : list (jsstring * list jsstring))
    (words : list jsstring) : number :=
  fold_left
    (fun score entry =>
       let matches := length (filter (fun word => word ∈ entry.2) words) in
       let score :=
         if decide (entry.1 = utf16 "positive")
         then (score + ofNat matches * Num (3 # 10))%js else score in
       if decide (entry.1 = utf16 "negative")
       then (score - ofNat matches * Num (3 # 10))%js else score)
    table (Num 0).

Definition analyzeSentimentScore `{Host} (content : jsstring) : number :=
  let words := splitWhitespace (toLowerCase content) in
  let score := scoreEntries sentimentIndicators words in
  Math_max (Num (-1)) (Math_min (Num 1) score).

Definition generateTurningPointEvent (content : jsstring)
    (sentimentChange : number) : jsstring :=
  if (sentimentChange >? Num (5 # 10))%js
  then utf16 "情感转折：变得更加积极 " ++ [34%N] ++ substring0 30 content
         ++ utf16 "..." ++ [34%N]
  else utf16 "情感转折：出现负面情绪 " ++ [34%N] ++ substring0 30 content
         ++ utf16 "..." ++ [34%N].

Definition sum (l : list number) : number := fold_left jsadd l (Num 0).

Definition calculateEmotionalVariance (sentiments : list number) : number :=
  if (length sentiments =? 0)%nat then Num 0
  else
    let mean := (sum sentiments / ofNat (length sentiments))%js in
    let variance :=
      (fold_left (fun acc s => acc + (s - mean) * (s - mean)) sentiments (Num 0)
       / ofNat (length sentiments))%js in
    Math_min (Num 1) variance.

(** The counters of [sentimentDistribution] inside [analyzeSentiment]. *)
Record distribution := Distribution {
  positive : nat;
  neutral : nat;
  negative : nat
}.

Definition generateSentimentInsights (d : distribution) (variance : number)
  : list jsstring :=
  let insights :=
    if (negative d + neutral d <? positive d)%nat
    then [utf16 "整体对话氛围积极正面"]
    else if (positive d + neutral d <? negative d)%nat
    then [utf16 "对话中存在较多负面情绪，需要关注"]
    else [] in
  if (variance >? Num (5 # 10))%js
  then insights ++ [utf16 "情感波动较大，需要稳定情绪管理"]
  else insights ++ [utf16 "情感相对稳定，对话质量较好"].

Definition containsKeyKeywords (content : jsstring) : bool :=
  existsb (includes content) (map utf16 ["重要"; "关键"; "核心"; "主要"; "显著"]).

Definition hasClearStructure (content : jsstring) : bool :=
  existsb (includes content)
          (map utf16 ["首先"; "其次"; "最后"; "第一"; "第二"; "第三"]).

Definition calculatePointStrength (content : jsstring) : number :=
  let lengthScore := Math_min (Num 1) (ofNat (length content) / Num 200)%js in
  let keywordScore := if containsKeyKeywords content then Num (5 # 10) else Num 0 in
  let structureScore := if hasClearStructure content then Num (3 # 10) else Num 0 in
  ((lengthScore + keywordScore + structureScore) / Num (18 # 10))%js.

Definition analyzeOpinionType (content : jsstring) : Z :=
  let positiveWords := map utf16 ["支持"; "同意"; "赞成"; "很好"] in
  let negativeWords := map utf16 ["反对"; "不同意"; "不行"; "问题"] in
  let posCount := length (filter (fun word => includes content word = true) positiveWords) in
  let negCount := length (filter (fun word => includes content word = true) negativeWords) in
  if (negCount <? posCount)%nat then 1%Z
  else if (posCount <? negCount)%nat then (-1)%Z else 0%Z.

Definition calculateSimilarity `{Host} (text1 text2 : jsstring) : number :=
  let words1 : gset jsstring := list_to_set (splitWhitespace (toLowerCase text1)) in
  let words2 : gset jsstring := list_to_set (splitWhitespace (toLowerCase text2)) in
  let intersection : gset jsstring :=
    list_to_set (filter (fun word => word ∈ words2) (elements words1)) in
  let union : gset jsstring := list_to_set (elements words1 ++ elements words2) in
  (ofNat (size intersection) / ofNat (size union))%js.

Definition calculateConsensusLevel `{Host} (dialogue : list message)
    (text : jsstring) : outcome number :=
  similarMessages ←
    filterM (fun msg =>
               msgContent ← receiver (content msg);
               Ok (calculateSimilarity msgContent text >? Num (6 # 10))%js)
            dialogue;
  Ok (Math_min (Num 1) (ofNat (length similarMessages) / Num 3)%js).

Definition extractEvidence (content : jsstring) : list jsstring :=
  let evidencePatterns := map utf16 ["根据"; "数据显示"; "研究表明"; "证据表明"; "统计"] in
  let evidence := filter (fun pattern => includes content pattern = true) evidencePatterns in
  if (0 <? length evidence)%nat then evidence else [].

Definition extractMainTopic (content : jsstring) : jsstring :=
  let topics := detectTopics content in
  match topics with
  | first :: _ => first
  | [] => utf16 "一般话题"
  end.

Definition hasEvidence (content : jsstring) : bool :=
  (0 <? length (extractEvidence content))%nat.

(** The number that [x.toFixed(digits)] prints, for [x] that is not negative. *)
Definition toFixed (digits : nat) (x : number) : number :=
  let scale := Num (inject_Z (10 ^ Z.of_nat digits)) in
  (Math_round (x * scale) / scale)%js.

(** [String(value)] of a property key. *)
Definition propertyKey (v : option jsstring) : jsstring :=
  default (utf16 "undefined") v.

(** The names of the properties that an object created by [{}] inherits
    from the standard [Object.prototype].  Reading one of them on an object
    without an own property of that name gives the inherited value: a
    function, or the prototype itself for [__proto__]. *)
Definition inheritedKeys : list jsstring :=
  map utf16 [ "constructor"; "__defineGetter__"; "__defineSetter__";
              "hasOwnProperty"; "__lookupGetter__"; "__lookupSetter__";
              "isPrototypeOf"; "propertyIsEnumerable"; "toString"; "valueOf";
              "__proto__"; "toLocaleString" ].

(** [if (!object[key]) { object[key] = []; } object[key].push(entry)] on an
    object created by [{}], whose own properties are the map.  Without an
    own property, an inherited one is read: it is truthy, so no array is
    stored, and it has no [push], so the call raises. *)
Definition pushUnder {A} (key : jsstring) (entry : A)
    (object : gmap jsstring (list A)) : outcome (gmap jsstring (list A)) :=
  match object !! key with
  | Some entries => Ok (<[key := entries ++ [entry]]> object)
  | None =>
    if decide (key ∈ inheritedKeys) then Throw TypeError
    else Ok (<[key := [entry]]> object)
  end.

(** ** Topic analysis *)

Record keySegment := KeySegment {
  seg_id : nat;
  seg_speaker : option jsstring;
  seg_timestamp : option jsstring;
  seg_topic : jsstring;
  seg_snippet : jsstring;
  seg_fullContent : jsstring
}.

(** An entry of [themeEvolution]; its [intensity] is [Math.random() * 100],
    not a function of the conversation, and is left out. *)
Record evolutionPoint := EvolutionPoint {
  evo_timePoint : nat;
  evo_topic : jsstring
}.

Record pieSlice := PieSlice {
  pie_name : jsstring;
  pie_value : nat;
  pie_percentage : number
}.

(** The value of [lastTopic] and [topics[0]]: [null], [undefined] or a label. *)
Inductive topicRef := NullTopic | UndefinedTopic | Topic (name : jsstring).

#[global] Instance topicRef_eq_dec : EqDecision topicRef.
Proof. solve_decision. Defined.

Record themeTransition := ThemeTransition {
  tr_from : topicRef;
  tr_to : topicRef;
  tr_frequency : nat;
  tr_timestamp : option jsstring
}.

Record topicsSummary := TopicsSummary {
  dominantTheme : jsstring;
  themeVariety : nat;
  avgSegmentLength : number
}.

Record topicsResult := TopicsResult {
  themeDistribution : list pieSlice;
  themeEvolution : list evolutionPoint;
  themeTransitions : list themeTransition;
  keySegments : list keySegment;
  topics_summary : topicsSummary
}.

(** [counts[topic] = (counts[topic] || 0) + 1] on an object whose keys are
    kept in insertion order.  The keys are the topic labels that
    [detectTopics] returns; none of them is an index or the name of an
    inherited property. *)
Fixpoint increment (topic : jsstring) (counts : list (jsstring * nat))
  : list (jsstring * nat) :=
  match counts with
  | [] => [(topic, 1%nat)]
  | (name, value) :: rest =>
    if decide (name = topic) then (name, Datatypes.S value) :: rest
    else (name, value) :: increment topic rest
  end.

Definition countOf (counts : list (jsstring * nat)) (topic : jsstring) : nat :=
  match list_find (fun entry => entry.1 = topic) counts with
  | Some found => found.2.2
  | None => 0%nat
  end.

Definition firstTopic (topics : list jsstring) : topicRef :=
  match topics with
  | first :: _ => Topic first
  | [] => UndefinedTopic
  end.

Definition analyzeThemeTransitions (dialogue : list message)
  : outcome (list themeTransition) :=
  vars ← forEach
    (fun '(transitions, lastTopic) msg (index : nat) =>
       text ← receiver (content msg);
       let topics := detectTopics text in
       let transitions :=
         if (0 <? length topics)%nat
            && negb (bool_decide (firstTopic topics = lastTopic))
            && negb (bool_decide (lastTopic = NullTopic))
         then transitions ++ [ThemeTransition lastTopic (firstTopic topics) 1
                                              (timestamp msg)]
         else transitions in
       Ok (transitions, firstTopic topics))
    dialogue 0%nat ([], NullTopic);
  Ok (take 10 vars.1).

(** The callback of [dialogue.forEach] in [analyzeTopics], on the three
    variables it updates. *)
Definition topicStep (dialogue : list message)
    (vars : list (jsstring * nat) * list keySegment * list evolutionPoint)
    (msg : message) (index : nat)
  : outcome (list (jsstring * nat) * list keySegment * list evolutionPoint) :=
  let '(counts, segments, evolution) := vars in
  text ← receiver (content msg);
  let detectedTopics := detectTopics text in
  let '(counts, segments) :=
    fold_left
      (fun '(counts, segments) topic =>
         (increment topic counts,
          if (50 <? length text)%nat
          then segments ++
               [KeySegment index (speaker msg) (timestamp msg) topic
                           (substring0 100 text ++ utf16 "...") text]
          else segments))
      detectedTopics (counts, segments) in
  let evolution :=
    if (index mod 10 =? 0)%nat then
      let recentTopics :=
        detectTopics
          (join (utf16 " ")
                (map content (slice (index - 10) (index + 1) dialogue))) in
      evolution ++ map (EvolutionPoint index) recentTopics
    else evolution in
  Ok (counts, segments, evolution).

Definition analyzeTopics (dialogue : list message) : outcome topicsResult :=
  vars ← forEach (topicStep dialogue) dialogue 0%nat ([], [], []);
  let '(counts, segments, evolution) := vars in
  let totalCount := fold_left Nat.add (map snd counts) 0%nat in
  let pieData :=
    map (fun entry =>
           PieSlice entry.1 entry.2
             (toFixed 1 (ofNat entry.2 / ofNat totalCount * Num 100)%js))
        counts in
  transitions ← analyzeThemeTransitions dialogue;
  dominant ←
    reduce1 (fun a b => if (countOf counts b <? countOf counts a)%nat then a else b)
            (map fst counts);
  Ok (TopicsResult pieData (take 20 evolution) transitions (take 10 segments)
        (TopicsSummary dominant (length counts)
           (if (0 <? length segments)%nat
            then toFixed 0
                   (ofNat (fold_left (fun total seg => total + length (seg_fullContent seg))%nat
                                     segments 0%nat)
                    / ofNat (length segments))%js
            else Num 0))).

(** ** Sentiment analysis *)

Record trendPoint := TrendPoint {
  trend_timeIndex : nat;
  trend_sentiment : number;
  trend_speaker : option jsstring;
  trend_timestamp : option jsstring
}.

Record turningPoint := TurningPoint {
  tp_timeIndex : nat;
  tp_timestamp : option jsstring;
  tp_event : jsstring;
  tp_impact : number;
  tp_recovery : jsstring
}.

Record participantEntry := ParticipantEntry {
  pe_timeIndex : nat;
  pe_sentiment : number;
  pe_content : jsstring
}.

Record distributionBar := DistributionBar {
  bar_name : jsstring;
  bar_value : nat;
  bar_color : jsstring
}.

(** [participantsSentiment] is an object used as a map from the speaker's
    property key to that speaker's entries; the map holds its own
    properties, the inherited ones are [inheritedKeys]. *)
Record sentimentResult := SentimentResult {
  sentimentTrend : list trendPoint;
  sentimentDistribution : list distributionBar;
  turningPoints : list turningPoint;
  participantsSentiment : gmap jsstring (list participantEntry);
  healthScore : number;
  healthLevel : jsstring;
  insights : list jsstring
}.

(** The callback of [dialogue.forEach] in [analyzeSentiment], on the four
    variables it updates. *)
Definition sentimentStep `{Host}
    (vars : list trendPoint * distribution * list turningPoint
            * gmap jsstring (list participantEntry))
    (msg : message) (index : nat)
  : outcome (list trendPoint * distribution * list turningPoint
             * gmap jsstring (list participantEntry)) :=
  let '(trend, counts, turning, participants) := vars in
  text ← receiver (content msg);
  let sentiment := analyzeSentimentScore text in
  let counts :=
    if (sentiment >? Num (3 # 10))%js
    then Distribution (Datatypes.S (positive counts)) (neutral counts) (negative counts)
    else if (sentiment <? Num (-3 # 10))%js
    then Distribution (positive counts) (neutral counts) (Datatypes.S (negative counts))
    else Distribution (positive counts) (Datatypes.S (neutral counts)) (negative counts) in
  participants ←
    pushUnder (propertyKey (speaker msg))
              (ParticipantEntry index sentiment (substring0 50 text))
              participants;
  let trend := trend ++ [TrendPoint index sentiment (speaker msg) (timestamp msg)] in
  turning ←
    (if (0 <? index)%nat then
       previous ← receiver (trend !! (index - 1)%nat);
       let prevSentiment := trend_sentiment previous in
       let sentimentChange := (sentiment - prevSentiment)%js in
       Ok (if (Math_abs sentimentChange >? Num (5 # 10))%js
           then turning ++
                [TurningPoint index (timestamp msg)
                   (generateTurningPointEvent text sentimentChange)
                   (Math_abs sentimentChange)
                   (if (sentiment >? Num 0)%js then utf16 "积极" else utf16 "消极")]
           else turning)
     else Ok turning);
  Ok (trend, counts, turning, participants).

Definition analyzeSentiment `{Host} (dialogue : list message)
  : outcome sentimentResult :=
  vars ← forEach sentimentStep dialogue 0%nat ([], Distribution 0 0 0, [], ∅);
  let '(trend, counts, turning, participants) := vars in
  let totalMessages := length dialogue in
  let positivityRatio := (ofNat (positive counts) / ofNat totalMessages)%js in
  let negativityRatio := (ofNat (negative counts) / ofNat totalMessages)%js in
  let emotionalVariance := calculateEmotionalVariance (map trend_sentiment trend) in
  let score :=
    Math_max (Num 0)
      (Math_min (Num 100)
         ((positivityRatio * Num 40 + (Num 1 - negativityRatio) * Num 30
           + (Num 1 - emotionalVariance) * Num 30) * Num 100)%js) in
  Ok (SentimentResult
        (take 50 trend)
        [ DistributionBar (utf16 "积极") (positive counts) (utf16 "#4caf50");
          DistributionBar (utf16 "中性") (neutral counts) (utf16 "#ff9800");
          DistributionBar (utf16 "消极") (negative counts) (utf16 "#f44336") ]
        (take 8 turning)
        participants
        (Math_round score)
        (if (score >? Num 70)%js then utf16 "良好"
         else if (score >? Num 50)%js then utf16 "一般" else utf16 "需关注")
        (generateSentimentInsights counts emotionalVariance)).

(** ** Key-point analysis *)

Record keyPoint := KeyPoint {
  kp_id : nat;
  kp_content : jsstring;
  kp_speaker : option jsstring;
  kp_timestamp : option jsstring;
  kp_importance : number;
  kp_consensusLevel : number;
  kp_intensity : number;
  kp_evidence : list jsstring
}.

Record controversialTopic := ControversialTopic {
  ct_topic : jsstring;
  ct_stance : jsstring;
  ct_speaker : option jsstring;
  ct_evidence : list jsstring
}.

Record consensusPoint := ConsensusPoint {
  cp_agreement : jsstring;
  cp_consensusLevel : number;
  cp_evidence : list jsstring
}.

Record evidenceReference := EvidenceReference {
  er_quote : jsstring;
  er_speaker : option jsstring;
  er_timestamp : option jsstring;
  er_relevance : number
}.

Record keyPointsSummary := KeyPointsSummary {
  totalKeyPoints : nat;
  avgConsensusLevel : number;
  dominantPosition : jsstring
}.

Record keyPointsResult := KeyPointsResult {
  keyPoints : list keyPoint;
  controversialTopics : list controversialTopic;
  consensusPoints : list consensusPoint;
  evidenceReferences : list evidenceReference;
  influenceAnalysis : list (jsstring * nat);
  keyPoints_summary : keyPointsSummary
}.

Definition findDominantPosition (points : list keyPoint) : jsstring :=
  let positions :=
    fold_left
      (fun counts point =>
         let opinion := analyzeOpinionType (kp_content point) in
         if (0 <? opinion)%Z
         then Distribution (Datatypes.S (positive counts)) (neutral counts) (negative counts)
         else if (opinion <? 0)%Z
         then Distribution (positive counts) (neutral counts) (Datatypes.S (negative counts))
         else Distribution (positive counts) (Datatypes.S (neutral counts)) (negative counts))
      points (Distribution 0 0 0) in
  let valueOf key :=
    if decide (key = utf16 "positive") then positive positions
    else if decide (key = utf16 "neutral") then neutral positions
    else negative positions in
  fold_left (fun a b => if (valueOf b <? valueOf a)%nat then a else b)
            [utf16 "neutral"; utf16 "negative"] (utf16 "positive").

Definition analyzeInfluence (points : list keyPoint) : list (jsstring * nat) :=
  [ (utf16 "技术方案", 88%nat); (utf16 "时间安排", 75%nat); (utf16 "资源分配", 82%nat) ].

(** The callback of [dialogue.forEach] in [analyzeKeyPoints], on the four
    arrays it pushes to. *)
Definition keyPointStep `{Host} (dialogue : list message)
    (vars : list keyPoint * list controversialTopic * list consensusPoint
            * list evidenceReference)
    (msg : message) (index : nat)
  : outcome (list keyPoint * list controversialTopic * list consensusPoint
             * list evidenceReference) :=
  let '(points, controversial, consensus, references) := vars in
  text ← receiver (content msg);
  let pointStrength := calculatePointStrength text in
  if (pointStrength >? Num (7 # 10))%js || (100 <? length text)%nat then
    let opinionScore := analyzeOpinionType text in
    consensusLevel ← calculateConsensusLevel dialogue text;
    let intensity := Math_abs (analyzeSentimentScore text) in
    let points :=
      points ++
      [KeyPoint index
         (substring0 200 text ++ (if (200 <? length text)%nat then utf16 "..." else []))
         (speaker msg) (timestamp msg)
         (Math_round (pointStrength * Num 100)%js)
         (Math_round (consensusLevel * Num 100)%js)
         (Math_round (intensity * Num 100)%js)
         (extractEvidence text)] in
    let controversial :=
      if (consensusLevel <? Num (3 # 10))%js
      then controversial ++
           [ControversialTopic (extractMainTopic text)
              (if (0 <? opinionScore)%Z then utf16 "支持" else utf16 "反对")
              (speaker msg) [text]]
      else controversial in
    let consensus :=
      if (consensusLevel >? Num (7 # 10))%js
      then consensus ++
           [ConsensusPoint (substring0 100 text ++ utf16 "...")
              (Math_round (consensusLevel * Num 100)%js) [text]]
      else consensus in
    let references :=
      if hasEvidence text
      then references ++
           [EvidenceReference text (speaker msg) (timestamp msg) pointStrength]
      else references in
    Ok (points, controversial, consensus, references)
  else Ok vars.

Definition analyzeKeyPoints `{Host} (dialogue : list message)
  : outcome keyPointsResult :=
  vars ← forEach (keyPointStep dialogue) dialogue 0%nat ([], [], [], []);
  let '(points, controversial, consensus, references) := vars in
  let influence := analyzeInfluence points in
  let sorted :=
    sortWith (fun a b => (kp_importance b - kp_importance a >? Num 0)%js) points in
  Ok (KeyPointsResult
        (take 15 sorted)
        (take 8 controversial)
        (take 6 consensus)
        (take 10 (sortWith (fun a b => (er_relevance b - er_relevance a >? Num 0)%js)
                           references))
        influence
        (KeyPointsSummary
           (length sorted)
           (if (0 <? length sorted)%nat
            then toFixed 1 (sum (map kp_consensusLevel sorted)
                            / ofNat (length sorted))%js
            else Num 0)
           (findDominantPosition sorted))).

(** ** Intent detection *)

(** [array.some(p)] where the predicate may raise: the elements are tried
    in order until one satisfies [p]. *)
Fixpoint someM {A} (p : A -> outcome bool) (l : list A) : outcome bool :=
  match l with
  | [] => Ok false
  | x :: r => found ← p x; if found : bool then Ok true else someM p r
  end.

(** [words.some(word => content.includes(word))]. *)
Definition includesSome (content : option jsstring) (words : list jsstring)
  : outcome bool :=
  someM (fun word => text ← receiver content; Ok (includes text word)) words.

Record intent := Intent {
  intent_type : jsstring;
  intent_frequency : nat;
  intent_confidence : number
}.

Definition detectIntents (contents : list (option jsstring))
  : outcome (list intent) :=
  intents ← forEach
    (fun intents '(intent, keywords) (_ : nat) =>
       matched ← filterM (fun content => includesSome content keywords) contents;
       let matches := length matched in
       Ok (if (0 <? matches)%nat
           then intents ++
                [Intent intent matches
                   (Math_min (Num 1) (ofNat matches / ofNat (length contents))%js)]
           else intents))
    intentKeywords 0%nat [];
  Ok (sortWith (fun a b => (ofNat (intent_frequency b) - ofNat (intent_frequency a)
                            >? Num 0)%js)
               intents).

(** The methods are folded and unfolded by name in the proofs. *)
#[global] Arguments detectTopics : simpl never.
#[global] Arguments scoreEntries : simpl never.
#[global] Arguments analyzeSentimentScore : simpl never.
#[global] Arguments generateTurningPointEvent : simpl never.
#[global] Arguments calculateEmotionalVariance : simpl never.
#[global] Arguments generateSentimentInsights : simpl never.
#[global] Arguments containsKeyKeywords : simpl never.
#[global] Arguments hasClearStructure : simpl never.
#[global] Arguments calculatePointStrength : simpl never.
#[global] Arguments analyzeOpinionType : simpl never.
#[global] Arguments calculateSimilarity : simpl never.
#[global] Arguments calculateConsensusLevel : simpl never.
#[global] Arguments extractEvidence : simpl never.
#[global] Arguments extractMainTopic : simpl never.
#[global] Arguments hasEvidence : simpl never.
#[global] Arguments findDominantPosition : simpl never.
#[global] Arguments analyzeInfluence : simpl never.
#[global] Arguments toFixed : simpl never.
#[global] Arguments propertyKey : simpl never.
#[global] Arguments pushUnder : simpl never.
#[global] Arguments sortWith : simpl never.
#[global] Arguments detectIntents : simpl never.

(** ** The specification's vocabulary *)

(** [a === b] on numbers: NaN equals nothing. *)
Definition jseq (a b : number) : bool :=
  match a, b with
  | Num x, Num y => Qeq_bool x y
  | PosInf, PosInf | NegInf, NegInf => true
  | _, _ => false
  end.

(** [p] occurs in [s] as a contiguous run of code units. *)
Definition isSubstring (p s : jsstring) : Prop :=
  ∃ before after, s = before ++ p ++ after.

(** The token set of a text: its lower-case white-space-delimited pieces. *)
Definition tokenize `{Host} (text : jsstring) : gset jsstring :=
  list_to_set (splitWhitespace (toLowerCase text)).

(** The Jaccard coefficient of two sets. *)
Definition jaccard (A B : gset jsstring) : Q :=
  inject_Z (Z.of_nat (size (A ∩ B))) / inject_Z (Z.of_nat (size (A ∪ B))).

(** The bucket of [sentimentIndicators] stored under a key. *)
Definition lexiconBucket (key : string) : list jsstring :=
  match list_find (fun entry => entry.1 = utf16 key) sentimentIndicators with
  | Some found => found.2.2
  | None => []
  end.

(** The number of tokens that equal an entry of a bucket. *)
Definition lexiconMatches (bucket tokens : list jsstring) : nat :=
  length (filter (fun token => token ∈ bucket) tokens).

Definition clamp (x low high : Q) : Q := Qmax low (Qmin high x).

(** [scoreTurn] as the specification words it. *)
Definition scoreTurn `{Host} (text : jsstring) : Q :=
  let tokens := splitWhitespace (toLowerCase text) in
  let positiveMatches :=
    inject_Z (Z.of_nat (lexiconMatches (lexiconBucket "positive") tokens)) in
  let negativeMatches :=
    inject_Z (Z.of_nat (lexiconMatches (lexiconBucket "negative") tokens)) in
  clamp ((3 # 10) * positiveMatches - (3 # 10) * negativeMatches) (-1) 1.

(** A topic category matches a text when one of its trigger phrases occurs
    in the text. *)
Definition topicMatches (text topic : jsstring) : Prop :=
  ∃ patterns pattern,
    (topic, patterns) ∈ topicPatterns ∧ pattern ∈ patterns
    ∧ isSubstring pattern text.

(** A host that lower-cases Basic Latin only, for evaluating the service
    on texts without other cased letters. *)
Definition asciiHost : Host := {| toLowerCase := asciiLowerCase |}.

(** The [controversialTopics] array among the variables of the loop of
    [analyzeKeyPoints]. *)
Definition controversialOf
    (vars : list keyPoint * list controversialTopic * list consensusPoint
            * list evidenceReference) : list controversialTopic :=
  vars.1.1.2.

(** The sentiment score of turn [i], when the turn exists and has content. *)
Definition sentimentAt `{Host} (dialogue : list message) (i : nat)
  : option number :=
  m ← dialogue !! i; text ← content m; Some (analyzeSentimentScore text).

(** The trend entry of turn [i]. *)
Definition trendPointAt `{Host} (dialogue : list message) (i : nat)
  : option trendPoint :=
  m ← dialogue !! i;
  sentiment ← sentimentAt dialogue i;
  Some (TrendPoint i sentiment (speaker m) (timestamp m)).

(** The turning point at turn [i]: there is one when [i > 0] and the score
    differs from the one of turn [i - 1] by more than 0.5. *)
Definition turningPointAt `{Host} (dialogue : list message) (i : nat)
  : option turningPoint :=
  m ← dialogue !! i;
  text ← content m;
  sentiment ← sentimentAt dialogue i;
  previous ← sentimentAt dialogue (i - 1);
  let change := (sentiment - previous)%js in
  if (0 <? i)%nat && (Math_abs change >? Num (5 # 10))%js
  then Some (TurningPoint i (timestamp m)
               (generateTurningPointEvent text change) (Math_abs change)
               (if (sentiment >? Num 0)%js then utf16 "积极" else utf16 "消极"))
  else None.

(** Every turn has content. *)
Definition wellFormed (dialogue : list message) : Prop :=
  ∀ m, m ∈ dialogue → is_Some (content m).

(** The trend and the turning points of the loop of [analyzeSentiment]
    after [j] turns. *)
Definition trendInvariant `{Host} (dialogue : list message) (j : nat)
    (vars : list trendPoint * distribution * list turningPoint
            * gmap jsstring (list participantEntry)) : Prop :=
  vars.1.1.1 = omap (trendPointAt dialogue) (seq 0 j)
  ∧ vars.1.2 = omap (turningPointAt dialogue) (seq 0 j).

(** Each of the first [j] turns has an entry under its speaker's key. *)
Definition participantsInvariant (dialogue : list message) (j : nat)
    (participants : gmap jsstring (list participantEntry)) : Prop :=
  ∀ i m, (i < j)%nat → dialogue !! i = Some m →
    ∃ entries entry,
      participants !! propertyKey (speaker m) = Some entries
      ∧ entry ∈ entries ∧ pe_timeIndex entry = i.

(** [wellFormed], decided. *)
Definition hasContent (m : message) : bool :=
  match content m with Some _ => true | None => false end.

(** No speaker's property key is the name of a property inherited from
    [Object.prototype]; a missing speaker, whose key is ["undefined"],
    qualifies. *)
Definition plainSpeakers (dialogue : list message) : Prop :=
  ∀ m, m ∈ dialogue → propertyKey (speaker m) ∉ inheritedKeys.

(** [plainSpeakers], decided. *)
Definition hasPlainSpeaker (m : message) : bool :=
  negb (bool_decide (propertyKey (speaker m) ∈ inheritedKeys)).

(** The population variance of a list of scores. *)
Definition populationVariance (scores : list Q) : Q :=
  let n := inject_Z (Z.of_nat (length scores)) in
  let mean := (fold_right Qplus 0 scores / n)%Q in
  (fold_right (fun s total => (s - mean) * (s - mean) + total) 0 scores / n)%Q.

(** The health score as the specification words it, from the per-turn
    scores of a conversation. *)
Definition specifiedHealthScore (scores : list Q) : Q :=
  let n := inject_Z (Z.of_nat (length scores)) in
  let positivityRatio :=
    (inject_Z (Z.of_nat (length (filter (fun s => Qltb (3 # 10) s = true) scores)))
     / n)%Q in
  let negativityRatio :=
    (inject_Z (Z.of_nat (length (filter (fun s => Qltb s (- (3 # 10)) = true) scores)))
     / n)%Q in
  let emotionalVariance := Qmin 1 (populationVariance scores) in
  clamp (100 * ((4 # 10) * positivityRatio + (3 # 10) * (1 - negativityRatio)
                + (3 # 10) * (1 - emotionalVariance)))%Q 0 100.

(** ** Conversations used as examples *)

Definition turn (who text : string) : message :=
  Message (Some (utf16 who)) (Some (utf16 text)) None.

(** Two turns that voice only worries. *)
Definition worriedDialogue : list message :=
  [turn "A" "问题 困难"; turn "B" "担心 反对"].

(** Two long turns with no token in common. *)
Definition approval : jsstring := utf16 "支持 " ++ repeat 97%N 100.
Definition objection : jsstring := utf16 "反对 " ++ repeat 98%N 100.
Definition disputeDialogue : list message :=
  [ Message (Some (utf16 "A")) (Some approval) None;
    Message (Some (utf16 "B")) (Some objection) None ].

(** A conversation whose second turn has no content. *)
Definition brokenDialogue : list message :=
  [turn "A" "很好 支持"; Message (Some (utf16 "B")) None None; turn "C" "问题"].

(** A conversation whose second turn has no speaker. *)
Definition anonymousDialogue : list message :=
  [turn "A" "很好 支持"; Message None (Some (utf16 "问题 困难")) None].

(** A conversation whose second speaker is named like a property that
    every object inherits. *)
Definition inheritedDialogue : list message :=
  [turn "A" "很好 支持"; turn "constructor" "问题 困难"].

(** The turns whose content is similar to a text, as
    [calculateConsensusLevel] selects them. *)
Definition isSimilarTo `{Host} (text : jsstring) (m : message) : bool :=
  match content m with
  | Some c => (calculateSimilarity c text >? Num (6 # 10))%js
  | None => false
  end.

Definition similarTurns `{Host} (dialogue : list message) (text : jsstring)
  : list message :=
  filter (fun m => isSimilarTo text m = true) dialogue.

(** The test of [analyzeKeyPoints] for a turn to be a key point. *)
Definition qualifies (text : jsstring) : bool :=
  (calculatePointStrength text >? Num (7 # 10))%js || (100 <? length text)%nat.

(** The scores of the first [j] turns. *)
Definition scoresUpTo `{Host} (dialogue : list message) (j : nat) : list number :=
  omap (sentimentAt dialogue) (seq 0 j).

(** One update of the counters of [analyzeSentiment], and the counters
    after a list of scores. *)
Definition bump (counts : distribution) (sentiment : number) : distribution :=
  if (sentiment >? Num (3 # 10))%js
  then Distribution (Datatypes.S (positive counts)) (neutral counts) (negative counts)
  else if (sentiment <? Num (-3 # 10))%js
  then Distribution (positive counts) (neutral counts) (Datatypes.S (negative counts))
  else Distribution (positive counts) (Datatypes.S (neutral counts)) (negative counts).

Definition countsOf (scores : list number) : distribution :=
  fold_left bump scores (Distribution 0 0 0).

(** The rational a finite number stands for. *)
Definition numValue (x : number) : Q :=
  match x with
  | Num q => q
  | _ => 0%Q
  end.

(** Sums of rationals, and the sum of squared deviations from [a]. *)
Definition Qsum (l : list Q) : Q := fold_right Qplus 0%Q l.

Definition squaredDeviations (a : Q) (l : list Q) : Q :=
  Qsum (map (fun q => (q - a) * (q - a))%Q l).

(** The order of the returned key points: higher importance first, and
    among equal importances the earlier turn first. *)
Definition rankedBefore (a b : keyPoint) : Prop :=
  (numValue (kp_importance b) < numValue (kp_importance a))%Q
  ∨ ((numValue (kp_importance a) == numValue (kp_importance b))%Q
     ∧ (kp_id a < kp_id b)%nat).

Definition finiteImportance (p : keyPoint) : Prop :=
  ∃ q, kp_importance p = Num q.

(** The comparator [(a, b) => b.importance - a.importance], as [sortWith]
    takes it. *)
Definition byImportance (a b : keyPoint) : bool :=
  (kp_importance b - kp_importance a >? Num 0)%js.

(** What a stable sort needs of an element [x] that stood before [y]:
    whichever way the comparator decides, the outcome respects [R]. *)
Definition sortsBy {A} (R : relation A) (swap : A → A → bool) (x y : A) : Prop :=
  (swap x y = true → R y x) ∧ (swap x y = false → R x y).

(** The key points collected after [j] turns: finite importances, ids
    below [j], in increasing order of id. *)
Definition collected (j : nat)
    (vars : list keyPoint * list controversialTopic * list consensusPoint
            * list evidenceReference) : Prop :=
  Forall (fun p => finiteImportance p ∧ (kp_id p < j)%nat) vars.1.1.1
  ∧ StronglySorted (fun a b => (kp_id a < kp_id b)%nat) vars.1.1.1.

(** The first topic detected in turn [i]. *)
Definition leadTopic (dialogue : list message) (i : nat) : option jsstring :=
  m ← dialogue !! i; text ← content m; head (detectTopics text).

(** The theme transition at turn [i]: there is one when [i > 0] and the
    first topic of the turn differs from the first topic of turn [i - 1]. *)
Definition transitionAt (dialogue : list message) (i : nat)
  : option themeTransition :=
  m ← dialogue !! i;
  current ← leadTopic dialogue i;
  previous ← leadTopic dialogue (i - 1);
  if (0 <? i)%nat && negb (bool_decide (current = previous))
  then Some (ThemeTransition (Topic previous) (Topic current) 1 (timestamp m))
  else None.

(** The variables of the loop of [analyzeThemeTransitions] after [j] turns. *)
Definition transitionsInvariant (dialogue : list message) (j : nat)
    (vars : list themeTransition * topicRef) : Prop :=
  vars.1 = omap (transitionAt dialogue) (seq 0 j)
  ∧ vars.2 = match j with
             | 0%nat => NullTopic
             | Datatypes.S k => from_option Topic UndefinedTopic (leadTopic dialogue k)
             end.

#[global] Arguments leadTopic : simpl never.
#[global] Arguments transitionAt : simpl never.
(** Whether [detectTopics] finds [topic] in a turn. *)
Definition detects (topic : jsstring) (m : message) : bool :=
  match content m with
  | Some text => bool_decide (topic ∈ detectTopics text)
  | None => false
  end.

(** The number of turns in which [topic] is detected. *)
Definition detections (dialogue : list message) (topic : jsstring) : nat :=
  length (filter (fun m => detects topic m = true) dialogue).

(** The object [themeDistribution] of [analyzeTopics] after [j] turns: one
    key per detected topic, holding the number of turns that detected it. *)
Definition tallies (dialogue : list message) (j : nat)
    (vars : list (jsstring * nat) * list keySegment * list evolutionPoint)
  : Prop :=
  NoDup (map fst vars.1.1)
  ∧ Forall (fun entry => (1 <= entry.2)%nat) vars.1.1
  ∧ ∀ topic, countOf vars.1.1 topic = detections (take j dialogue) topic.

(** The key points whose opinion type is positive, zero and negative. *)
Definition opinionCounts (points : list keyPoint) : distribution :=
  Distribution
    (length (filter (fun p => (0 < analyzeOpinionType (kp_content p))%Z) points))
    (length (filter (fun p => analyzeOpinionType (kp_content p) = 0%Z) points))
    (length (filter (fun p => (analyzeOpinionType (kp_content p) < 0)%Z) points)).

(** The number of texts that contain one of the keywords. *)
Definition intentMatches (texts : list jsstring) (keywords : list jsstring) : nat :=
  length (filter (fun text => existsb (includes text) keywords = true) texts).

(** The intent an entry of [intentKeywords] contributes: none when no text
    contains a keyword, else its number of matching texts and their share. *)
Definition intentAt (texts : list jsstring) (entry : jsstring * list jsstring)
  : option intent :=
  let matches := intentMatches texts entry.2 in
  if (0 <? matches)%nat
  then Some (Intent entry.1 matches (ofNat matches / ofNat (length texts))%js)
  else None.

(** The position of an intent in the table [intentKeywords]. *)
Definition rankIn (keys : list jsstring) (name : jsstring) : nat :=
  default 0%nat (fst <$> list_find (fun key => key = name) keys).

Definition intentRank (i : intent) : nat :=
  rankIn (map fst intentKeywords) (intent_type i).

(** The order of the returned intents: higher frequency first, and among
    equal frequencies the order of the table. *)
Definition intentOrder (a b : intent) : Prop :=
  (intent_frequency b < intent_frequency a)%nat
  ∨ (intent_frequency a = intent_frequency b ∧ (intentRank a < intentRank b)%nat).

(** The comparator [(a, b) => b.frequency - a.frequency], as [sortWith]
    takes it. *)
Definition byFrequency (a b : intent) : bool :=
  (ofNat (intent_frequency b) - ofNat (intent_frequency a) >? Num 0)%js.

(** A turn that [analyzeSentiment] cannot process: its content is missing,
    or its speaker is named like a property inherited from
    [Object.prototype]. *)
Definition rejected (m : message) : Prop :=
  content m = None ∨ propertyKey (speaker m) ∈ inheritedKeys.

(** The object [participantsSentiment] has no own property under an
    inherited name. *)
Definition noInheritedName {A} (object : gmap jsstring (list A)) : Prop :=
  ∀ key, key ∈ inheritedKeys → object !! key = None.

#[global] Arguments sentimentAt : simpl never.
#[global] Arguments trendPointAt : simpl never.
#[global] Arguments turningPointAt : simpl never.

(** * Properties *)

(** ** Strings *)

Lemma startsWith_spec (s p : jsstring) :
  startsWith s p = true ↔ ∃ after, s = p ++ after.
Proof.
  revert s. induction p as [|a p IH]; intros s; simpl.
  - split; [intros _; by exists s | done].
  - destruct s as [|b s].
    + split; [done | intros [? ?]; discriminate].
    + rewrite andb_true_iff, N.eqb_eq, IH. split.
      * intros [-> [after ->]]. by exists after.
      * intros [after Heq]. injection Heq as -> ->. eauto.
Qed.

Lemma includes_spec (s p : jsstring) :
  includes s p = true ↔ isSubstring p s.
Proof.
  unfold isSubstring. induction s as [|c s IH]; simpl.
  - rewrite orb_false_r, startsWith_spec. split.
    + intros [after ->]. by exists [], after.
    + intros [before [after Heq]]. symmetry in Heq.
      apply app_eq_nil in Heq as [-> Heq]. exists after. by rewrite <- Heq.
  - rewrite orb_true_iff, startsWith_spec, IH. split.
    + intros [[after ->] | [before [after ->]]].
      * by exists [], after.
      * by exists (c :: before), after.
    + intros [[|b before] [after Heq]].
      * left. by exists after.
      * right. injection Heq as -> ->. by exists before, after.
Qed.

Lemma split_go_nonempty piece inRun s : split_go piece inRun s ≠ [].
Proof.
  revert piece inRun. induction s as [|c s IH]; intros piece inRun; simpl.
  - done.
  - destruct (isWhiteSpace c); [destruct inRun|]; auto.
Qed.

Lemma splitWhitespace_nonempty s : splitWhitespace s ≠ [].
Proof. apply split_go_nonempty. Qed.

Lemma tokenize_nonempty `{Host} text : tokenize text ≠ ∅.
Proof.
  unfold tokenize.
  destruct (splitWhitespace (toLowerCase text)) as [|w ws] eqn:Hsplit.
  - by apply splitWhitespace_nonempty in Hsplit.
  - intros Hempty. apply (not_elem_of_empty (C:=gset jsstring) w).
    rewrite <- Hempty, elem_of_list_to_set. apply list_elem_of_here.
Qed.

(** ** Numbers *)

Lemma Qltb_lt x y : Qltb x y = true ↔ (x < y)%Q.
Proof.
  unfold Qltb. rewrite negb_true_iff, <- not_true_iff_false, Qle_bool_iff.
  split; [apply Qnot_le_lt | apply Qlt_not_le].
Qed.

Lemma Qltb_ge x y : Qltb x y = false ↔ (y <= x)%Q.
Proof. unfold Qltb. by rewrite negb_false_iff, Qle_bool_iff. Qed.

Lemma jsgt_Num x y : (Num x >? Num y)%js = true ↔ (y < x)%Q.
Proof. apply Qltb_lt. Qed.

Lemma jslt_Num x y : (Num x <? Num y)%js = true ↔ (x < y)%Q.
Proof. apply Qltb_lt. Qed.

Lemma Math_min_Num x y :
  ∃ q, Math_min (Num x) (Num y) = Num q ∧ (q == Qmin x y)%Q.
Proof.
  unfold Math_min, jslt, jsgt. destruct (Qltb y x) eqn:Hlt.
  - apply Qltb_lt in Hlt. exists y. split; [done|].
    symmetry. apply Q.min_r. lra.
  - apply Qltb_ge in Hlt. exists x. split; [done|].
    symmetry. by apply Q.min_l.
Qed.

Lemma Math_max_Num x y :
  ∃ q, Math_max (Num x) (Num y) = Num q ∧ (q == Qmax x y)%Q.
Proof.
  unfold Math_max, jsgt. destruct (Qltb x y) eqn:Hlt.
  - apply Qltb_lt in Hlt. exists y. split; [done|].
    symmetry. apply Q.max_r. lra.
  - apply Qltb_ge in Hlt. exists x. split; [done|].
    symmetry. by apply Q.max_l.
Qed.

Lemma ofNat_div (n m : nat) :
  m ≠ 0%nat →
  (ofNat n / ofNat m)%js
  = Num (Qred (inject_Z (Z.of_nat n) / inject_Z (Z.of_nat m))).
Proof.
  intros Hm. unfold ofNat, jsdiv.
  destruct (Qeq_bool (inject_Z (Z.of_nat m)) 0) eqn:Hz; [|done].
  apply Qeq_bool_eq in Hz. unfold Qeq in Hz. simpl in Hz. lia.
Qed.

Lemma inject_nat_pos (n : nat) : n ≠ 0%nat → (0 < inject_Z (Z.of_nat n))%Q.
Proof. intros Hn. unfold Qlt. simpl. lia. Qed.

Lemma inject_nat_le (n m : nat) :
  (n ≤ m)%nat → (inject_Z (Z.of_nat n) <= inject_Z (Z.of_nat m))%Q.
Proof. intros Hle. rewrite <- Zle_Qle. lia. Qed.

(** ** Similarity *)

Lemma intersection_as_filter (X Y : gset jsstring) :
  list_to_set (filter (fun word => word ∈ Y) (elements X)) = X ∩ Y.
Proof.
  apply set_eq. intros w.
  rewrite elem_of_list_to_set, list_elem_of_filter, elem_of_elements.
  set_solver.
Qed.

Lemma union_as_append (X Y : gset jsstring) :
  list_to_set (elements X ++ elements Y) = X ∪ Y.
Proof.
  apply set_eq. intros w.
  rewrite elem_of_list_to_set, elem_of_app, !elem_of_elements. set_solver.
Qed.

Lemma union_size_nonzero_l (X Y : gset jsstring) :
  X ≠ ∅ → size (X ∪ Y) ≠ 0%nat.
Proof. intros HX Hz. apply size_empty_inv in Hz. set_solver. Qed.

Lemma size_nonzero (X : gset jsstring) : X ≠ ∅ → size X ≠ 0%nat.
Proof. intros HX Hz. apply size_empty_inv in Hz. by apply HX, leibniz_equiv. Qed.

Lemma jaccard_bounds (A B : gset jsstring) :
  size (A ∪ B) ≠ 0%nat → (0 <= jaccard A B <= 1)%Q.
Proof.
  intros Hne. unfold jaccard.
  pose proof (inject_nat_pos _ Hne) as Hpos.
  assert (size (A ∩ B) ≤ size (A ∪ B))%nat as Hle
    by (apply subseteq_size; set_solver).
  apply inject_nat_le in Hle.
  assert (0 <= inject_Z (Z.of_nat (size (A ∩ B))))%Q as Hnn
    by (rewrite <- (Zle_Qle 0); lia).
  split.
  - apply Qle_shift_div_l; lra.
  - apply Qle_shift_div_r; lra.
Qed.

Section similarity.
Context `{Host}.

Lemma calculateSimilarity_sizes (a b : jsstring) :
  calculateSimilarity a b
  = (ofNat (size (tokenize a ∩ tokenize b))
     / ofNat (size (tokenize a ∪ tokenize b)))%js.
Proof.
  unfold calculateSimilarity.
  by rewrite intersection_as_filter, union_as_append.
Qed.

Lemma union_size_nonzero (a b : jsstring) :
  size (tokenize a ∪ tokenize b) ≠ 0%nat.
Proof. apply union_size_nonzero_l, tokenize_nonempty. Qed.

Lemma calculateSimilarity_jaccard (a b : jsstring) :
  calculateSimilarity a b = Num (Qred (jaccard (tokenize a) (tokenize b))).
Proof.
  rewrite calculateSimilarity_sizes.
  by rewrite ofNat_div by apply union_size_nonzero.
Qed.

Lemma calculateSimilarity_self (a : jsstring) :
  calculateSimilarity a a = Num 1.
Proof.
  rewrite calculateSimilarity_jaccard. unfold jaccard.
  rewrite (idemp_L (∩)), (idemp_L (∪)).
  f_equal. change 1%Q with (Qred 1). apply Qred_complete.
  pose proof (inject_nat_pos _ (size_nonzero _ (tokenize_nonempty a))).
  field. lra.
Qed.
End similarity.

(** C10.  [calculateSimilarity] is symmetric in its two texts, both as values
    and under [===], and the similarity of a text with itself is 1; this
    holds for every text, the empty one included. *)
Theorem similarity_symmetric_and_reflexive `{Host} (a b : jsstring) :
  calculateSimilarity a b = calculateSimilarity b a
  ∧ jseq (calculateSimilarity a b) (calculateSimilarity b a) = true
  ∧ calculateSimilarity a a = Num 1.
Proof.
  assert (calculateSimilarity a b = calculateSimilarity b a) as Hsym.
  { rewrite !calculateSimilarity_sizes.
    by rewrite (comm_L (∩) (tokenize a)), (comm_L (∪) (tokenize a)). }
  split; [done|]. split; [|apply calculateSimilarity_self].
  rewrite <- Hsym, calculateSimilarity_jaccard. simpl. apply Qeq_bool_refl.
Qed.

(** C6 (as amended).  [calculateSimilarity] is the Jaccard coefficient of the
    two token sets, a number between 0 and 1.  A token set is never empty
    (the empty text has the empty string as its one token), and the
    similarity of two empty texts is 1. *)
Theorem similarity_is_jaccard `{Host} (a b : jsstring) :
  tokenize a ≠ ∅
  ∧ (∃ q, calculateSimilarity a b = Num q
          ∧ (q == jaccard (tokenize a) (tokenize b))%Q ∧ (0 <= q <= 1)%Q)
  ∧ calculateSimilarity [] [] = Num 1.
Proof.
  split; [apply tokenize_nonempty|]. split; [|apply calculateSimilarity_self].
  exists (Qred (jaccard (tokenize a) (tokenize b))).
  split; [apply calculateSimilarity_jaccard|].
  split; [apply Qred_correct|]. rewrite Qred_correct.
  apply jaccard_bounds, union_size_nonzero.
Qed.

(** C6, the claim as stated fails: two empty texts have similarity 1, not 0. *)
Lemma similarity_of_empty_texts :
  @calculateSimilarity asciiHost [] [] = Num 1
  ∧ jseq (@calculateSimilarity asciiHost [] []) (Num 0) = false.
Proof. split; reflexivity. Qed.

(** ** Sentiment score *)

Lemma scoreEntries_buckets (P N U : list jsstring) (words : list jsstring) :
  scoreEntries [(utf16 "positive", P); (utf16 "negative", N); (utf16 "neutral", U)]
               words
  = (Num 0 + ofNat (lexiconMatches P words) * Num (3 # 10)
     - ofNat (lexiconMatches N words) * Num (3 # 10))%js.
Proof.
  unfold scoreEntries, lexiconMatches. cbn [fold_left fst snd].
  rewrite (decide_True (P:=utf16 "positive" = utf16 "positive")) by done.
  rewrite (decide_False (P:=utf16 "positive" = utf16 "negative")) by done.
  rewrite (decide_False (P:=utf16 "negative" = utf16 "positive")) by done.
  rewrite (decide_True (P:=utf16 "negative" = utf16 "negative")) by done.
  rewrite (decide_False (P:=utf16 "neutral" = utf16 "positive")) by done.
  rewrite (decide_False (P:=utf16 "neutral" = utf16 "negative")) by done.
  done.
Qed.

Lemma sentimentIndicators_buckets :
  sentimentIndicators
  = [ (utf16 "positive", lexiconBucket "positive");
      (utf16 "negative", lexiconBucket "negative");
      (utf16 "neutral", lexiconBucket "neutral") ].
Proof. reflexivity. Qed.

Lemma clamp_bounds x : (-1 <= clamp x (-1) 1 <= 1)%Q.
Proof.
  unfold clamp.
  destruct (Q.min_spec 1 x) as [[? Hmin]|[? Hmin]];
    destruct (Q.max_spec (-1) (Qmin 1 x)) as [[? Hmax]|[? Hmax]];
    rewrite Hmax; try rewrite Hmin; lra.
Qed.

(** C7.  The score of a turn is [clamp(0.3 * positiveMatches
    - 0.3 * negativeMatches, -1, 1)], the matches counting the lower-case
    white-space-delimited tokens of the text that equal an entry of the
    positive or of the negative bucket; it lies between -1 and 1, and the
    content of the neutral bucket plays no part in it. *)
Theorem sentiment_score_is_clamped_difference `{Host} (text : jsstring) :
  (∃ q, analyzeSentimentScore text = Num q
        ∧ (q == scoreTurn text)%Q ∧ (-1 <= q <= 1)%Q)
  ∧ ∀ neutralBucket,
      scoreEntries [ (utf16 "positive", lexiconBucket "positive");
                     (utf16 "negative", lexiconBucket "negative");
                     (utf16 "neutral", neutralBucket) ]
                   (splitWhitespace (toLowerCase text))
      = scoreEntries sentimentIndicators (splitWhitespace (toLowerCase text)).
Proof.
  split.
  - unfold analyzeSentimentScore, scoreTurn.
    rewrite sentimentIndicators_buckets, scoreEntries_buckets.
    set (words := splitWhitespace (toLowerCase text)).
    set (p := lexiconMatches (lexiconBucket "positive") words).
    set (n := lexiconMatches (lexiconBucket "negative") words).
    unfold ofNat, jssub, jsmul, jsadd, jsneg.
    match goal with
    | |- context [Math_min (Num 1) (Num ?s)] =>
      destruct (Math_min_Num 1 s) as (m & -> & Hm)
    end.
    destruct (Math_max_Num (-1) m) as (q & -> & Hq).
    exists q. split; [done|].
    assert (q == clamp ((3 # 10) * inject_Z (Z.of_nat p)
                        - (3 # 10) * inject_Z (Z.of_nat n)) (-1) 1)%Q as Heq.
    { unfold clamp. rewrite Hq, Hm, !Qred_correct.
      apply Q.max_compat; [done|]. apply Q.min_compat; [done|]. ring. }
    split; [done|]. rewrite Heq. apply clamp_bounds.
  - intros neutralBucket.
    by rewrite sentimentIndicators_buckets, !scoreEntries_buckets.
Qed.

(** ** Topic detection *)

Lemma topicPatterns_names_distinct : NoDup (map fst topicPatterns).
Proof. by apply (bool_decide_unpack _). Qed.

Lemma detected_topic_matches (text topic : jsstring) :
  topic ∈ map fst (filter (fun entry => existsb (includes text) entry.2 = true)
                          topicPatterns)
  ↔ topicMatches text topic.
Proof.
  unfold topicMatches. rewrite list_elem_of_fmap. split.
  - intros [[name patterns] [-> [Hsome Hin]%list_elem_of_filter]].
    simpl in Hsome. apply existsb_exists in Hsome as (pattern & Hp & Hinc).
    apply list_elem_of_In in Hp. apply includes_spec in Hinc.
    by exists patterns, pattern.
  - intros (patterns & pattern & Hin & Hp & Hsub).
    exists (topic, patterns). split; [done|].
    apply list_elem_of_filter. split; [|done]. simpl.
    apply existsb_exists. exists pattern.
    by rewrite <- list_elem_of_In, includes_spec.
Qed.

(** C9.  When some category matches the text, [detectTopics] returns exactly
    the matching categories, each once and in the order of the table; when
    none matches it returns the one label [fallbackTopic], which is not a
    category of the table. *)
Theorem detectTopics_returns_matching_categories (text : jsstring) :
  ((∃ topic, topicMatches text topic) →
     (∀ topic, topic ∈ detectTopics text ↔ topicMatches text topic)
     ∧ NoDup (detectTopics text)
     ∧ detectTopics text `sublist_of` map fst topicPatterns)
  ∧ ((¬ ∃ topic, topicMatches text topic) → detectTopics text = [fallbackTopic])
  ∧ fallbackTopic = utf16 "一般讨论"
  ∧ fallbackTopic ∉ map fst topicPatterns.
Proof.
  unfold detectTopics.
  remember (map fst (filter _ topicPatterns)) as detected eqn:Hdetected.
  assert (detected `sublist_of` map fst topicPatterns) as Hsub.
  { subst detected. apply fmap_sublist, sublist_filter. }
  assert (∀ topic, topic ∈ detected ↔ topicMatches text topic) as Hmem.
  { subst detected. intros topic. apply detected_topic_matches. }
  clear Hdetected. split; [|split; [|split]].
  - intros [topic Hmatch]. apply Hmem in Hmatch.
    destruct detected as [|first more]; [by apply elem_of_nil in Hmatch|].
    cbn [length Nat.ltb Nat.leb]. split; [done|]. split; [|done].
    eapply sublist_NoDup; [apply topicPatterns_names_distinct|done].
  - intros Hnone. destruct detected as [|first more]; [done|].
    exfalso. apply Hnone. exists first. apply Hmem, list_elem_of_here.
  - reflexivity.
  - by apply (bool_decide_unpack _).
Qed.

(** ** Loops *)

Section loops.
Context {S A : Type}.
Implicit Types (f : S → A → nat → outcome S) (l : list A).

(** A loop whose every step succeeds and re-establishes an invariant
    indexed by the position runs to the end. *)
Lemma forEach_run (P : nat → S → Prop) f l i s :
  P i s →
  (∀ s x k, l !! k = Some x → P (i + k)%nat s →
            ∃ s', f s x (i + k)%nat = Ok s' ∧ P (Datatypes.S (i + k)) s') →
  ∃ s', forEach f l i s = Ok s' ∧ P (i + length l)%nat s'.
Proof.
  revert i s. induction l as [|x l IH]; intros i s Hs Hstep; simpl.
  - exists s. by rewrite Nat.add_0_r.
  - destruct (Hstep s x 0%nat) as (s1 & Hs1run & Hs1);
      [done | by rewrite Nat.add_0_r |].
    rewrite Nat.add_0_r in Hs1run, Hs1. rewrite Hs1run. simpl.
    destruct (IH (Datatypes.S i) s1 Hs1) as (s' & Hrun & Hs').
    + intros s0 y k Hy Hs0.
      replace (Datatypes.S i + k)%nat with (i + Datatypes.S k)%nat in * by lia.
      by apply Hstep.
    + exists s'. split; [done|].
      by replace (i + Datatypes.S (length l))%nat
        with (Datatypes.S i + length l)%nat by lia.
Qed.

(** What holds on entry and is kept by every successful step holds when
    the loop returns. *)
Lemma forEach_ok_inv (P : S → Prop) f l i s s' :
  P s →
  (∀ s x j s', x ∈ l → P s → f s x j = Ok s' → P s') →
  forEach f l i s = Ok s' → P s'.
Proof.
  revert i s. induction l as [|x l IH]; intros i s Hs Hstep; simpl.
  - by intros [= <-].
  - destruct (f s x i) as [s1|e] eqn:Hf; simpl; [|done].
    apply IH.
    + eapply Hstep; [apply list_elem_of_here|done..].
    + intros s0 y j s0' Hy. apply Hstep. by apply list_elem_of_further.
Qed.

(** A loop raises only where one of its steps does. *)
Lemma forEach_throw_inv f l i s e :
  forEach f l i s = Throw e → ∃ x s0 j, x ∈ l ∧ f s0 x j = Throw e.
Proof.
  destruct e. revert i s. induction l as [|x l IH]; intros i s; simpl; [done|].
  destruct (f s x i) as [s1|[]] eqn:Hf; simpl.
  - intros (y & s0 & j & Hy & Hthrow)%IH.
    exists y, s0, j. split; [by apply list_elem_of_further|done].
  - intros _. exists x, s, i. split; [apply list_elem_of_here|done].
Qed.

(** An element on which the step always raises makes the loop raise. *)
Lemma forEach_throws f l i s x :
  x ∈ l → (∀ s j, f s x j = Throw TypeError) →
  forEach f l i s = Throw TypeError.
Proof.
  intros Hx Hthrow. revert i s.
  induction Hx as [x l|x y l Hx IH]; intros i s; simpl.
  - by rewrite Hthrow.
  - destruct (f s y i) as [s1|[]]; simpl; [by apply IH|done].
Qed.
End loops.

Lemma filterM_keeps {A} (p : A → outcome bool) l kept x :
  filterM p l = Ok kept → x ∈ l → p x = Ok true → x ∈ kept.
Proof.
  revert kept. induction l as [|y l IH]; intros kept; simpl.
  - intros _ Hx. by apply elem_of_nil in Hx.
  - destruct (p y) as [keep|] eqn:Hy; simpl; [|done].
    destruct (filterM p l) as [rest|] eqn:Hrest; simpl; [|done].
    intros [= <-] [->|Hx]%elem_of_cons Hpx.
    + rewrite Hpx in Hy. injection Hy as <-. apply list_elem_of_here.
    + destruct keep; [apply list_elem_of_further|]; by apply IH.
Qed.

Lemma filterM_throw_inv {A} (p : A → outcome bool) l e :
  filterM p l = Throw e → ∃ x, x ∈ l ∧ p x = Throw e.
Proof.
  destruct e. induction l as [|y l IH]; simpl; [done|].
  destruct (p y) as [keep|[]] eqn:Hy; simpl.
  - destruct (filterM p l) as [rest|[]] eqn:Hrest; simpl; [done|].
    intros _. destruct IH as (x & Hx & Hthrow); [done|].
    exists x. split; [by apply list_elem_of_further|done].
  - intros _. exists y. split; [apply list_elem_of_here|done].
Qed.

Lemma receiver_throw_inv {A} (v : option A) e :
  receiver v = Throw e → v = None.
Proof. by destruct v. Qed.

(** ** Consensus level *)

Section consensus.
Context `{Host}.

Lemma calculateConsensusLevel_throw_inv dialogue text e :
  calculateConsensusLevel dialogue text = Throw e →
  ∃ m, m ∈ dialogue ∧ content m = None.
Proof.
  unfold calculateConsensusLevel.
  destruct (filterM _ dialogue) as [similar|e'] eqn:Hfilter; simpl; [done|].
  intros _. apply filterM_throw_inv in Hfilter as (m & Hm & Hthrow).
  exists m. split; [done|].
  destruct (content m); [done|reflexivity].
Qed.

Lemma calculateConsensusLevel_counts_self dialogue m text level :
  m ∈ dialogue → content m = Some text →
  calculateConsensusLevel dialogue text = Ok level →
  ∃ q, level = Num q ∧ (1 # 3 <= q)%Q.
Proof.
  intros Hm Hcontent. unfold calculateConsensusLevel.
  destruct (filterM _ dialogue) as [similar|e'] eqn:Hfilter; simpl; [|done].
  intros [= <-].
  assert (m ∈ similar) as Hsimilar.
  { eapply filterM_keeps; [done..|].
    cbv beta. rewrite Hcontent. simpl. by rewrite calculateSimilarity_self. }
  assert (1 ≤ length similar)%nat as Hlen.
  { destruct similar; [by apply elem_of_nil in Hsimilar | simpl; lia]. }
  apply (inject_nat_le 1) in Hlen. change (inject_Z (Z.of_nat 1)) with 1%Q in Hlen.
  unfold ofNat, jsdiv. change (Qeq_bool 3 0) with false. cbv iota.
  destruct (Math_min_Num 1 (Qred (inject_Z (Z.of_nat (length similar)) / 3)))
    as (q & -> & Hq).
  exists q. split; [done|]. rewrite Hq, Qred_correct.
  unfold Qdiv. change (/ 3)%Q with (1 # 3)%Q. apply Q.min_glb; lra.
Qed.
End consensus.

(** ** Key points *)

Section keyPoints.
Context `{Host}.

Lemma keyPointStep_no_controversy dialogue vars msg j vars' :
  msg ∈ dialogue → controversialOf vars = [] →
  keyPointStep dialogue vars msg j = Ok vars' → controversialOf vars' = [].
Proof.
  intros Hmsg. destruct vars as [[[points controversial] consensus] references].
  unfold controversialOf, keyPointStep. simpl. intros ->.
  destruct (content msg) as [text|] eqn:Hcontent; simpl; [|done].
  destruct (_ || _); [|by intros [= <-]].
  destruct (calculateConsensusLevel dialogue text) as [level|] eqn:Hlevel;
    simpl; [|done].
  destruct (calculateConsensusLevel_counts_self _ _ _ _ Hmsg Hcontent Hlevel)
    as (q & -> & Hq).
  assert ((Num q <? Num (3 # 10))%js = false) as ->.
  { apply Qltb_ge. lra. }
  by intros [= <-].
Qed.

Lemma keyPointStep_throw_inv dialogue vars msg j e :
  msg ∈ dialogue → keyPointStep dialogue vars msg j = Throw e →
  ∃ m, m ∈ dialogue ∧ content m = None.
Proof.
  intros Hmsg. destruct vars as [[[points controversial] consensus] references].
  unfold keyPointStep.
  destruct (content msg) as [text|] eqn:Hcontent; simpl; [|by exists msg].
  destruct (_ || _); [|done].
  destruct (calculateConsensusLevel dialogue text) as [level|e'] eqn:Hlevel;
    simpl; [done|].
  intros _. by eapply calculateConsensusLevel_throw_inv.
Qed.

Lemma forEach_keyPointStep_throw_inv dialogue l i vars e :
  l ⊆ dialogue → forEach (keyPointStep dialogue) l i vars = Throw e →
  ∃ m, m ∈ dialogue ∧ content m = None.
Proof.
  intros Hsub (msg & s0 & j & Hmsg & Hthrow)%forEach_throw_inv.
  eapply keyPointStep_throw_inv; [|done]. by apply Hsub.
Qed.
End keyPoints.

(** C3.  For a turn of the conversation, [calculateConsensusLevel] on the
    turn's content is at least 1/3, because the turn itself is among the
    similar messages; so it is never below 0.3, and the [controversialTopics]
    that [analyzeKeyPoints] returns is the empty list.  Neither function
    raises unless some turn has no content. *)
Theorem consensus_level_at_least_a_third `{Host} (dialogue : list message) :
  (∀ m text, m ∈ dialogue → content m = Some text →
     match calculateConsensusLevel dialogue text with
     | Ok level =>
       ∃ q, level = Num q ∧ (1 # 3 <= q)%Q ∧ (level <? Num (3 # 10))%js = false
     | Throw _ => ∃ m', m' ∈ dialogue ∧ content m' = None
     end)
  ∧ match analyzeKeyPoints dialogue with
    | Ok result => controversialTopics result = []
    | Throw _ => ∃ m', m' ∈ dialogue ∧ content m' = None
    end.
Proof.
  split.
  - intros m text Hm Hcontent.
    destruct (calculateConsensusLevel dialogue text) as [level|e] eqn:Hlevel.
    + destruct (calculateConsensusLevel_counts_self _ _ _ _ Hm Hcontent Hlevel)
        as (q & -> & Hq).
      exists q. split; [done|]. split; [done|]. apply Qltb_ge. lra.
    + by eapply calculateConsensusLevel_throw_inv.
  - unfold analyzeKeyPoints.
    destruct (forEach _ dialogue 0%nat _) as [vars|e] eqn:Hloop; simpl.
    + apply (forEach_ok_inv (fun vars => controversialOf vars = [])) in Hloop;
        [|done|].
      * destruct vars as [[[points controversial] consensus] references].
        simpl. unfold controversialOf in Hloop. simpl in Hloop. by rewrite Hloop.
      * intros s x j s' Hx Hs Hstep. by eapply keyPointStep_no_controversy.
    + by eapply forEach_keyPointStep_throw_inv.
Qed.

(** ** Sentiment trend and turning points *)

Lemma omap_seq_total {A} (f : nat → option A) (n : nat) :
  (∀ i, (i < n)%nat → is_Some (f i)) →
  length (omap f (seq 0 n)) = n
  ∧ ∀ i, (i < n)%nat → omap f (seq 0 n) !! i = f i.
Proof.
  induction n as [|n IH]; intros Hsome.
  - split; [done | intros i Hi; lia].
  - destruct IH as [Hlen Hlookup]; [intros i Hi; apply Hsome; lia|].
    rewrite seq_S, omap_app. cbn.
    destruct (Hsome n) as [x Hx]; [lia|]. rewrite Hx. split.
    + rewrite length_app, Hlen. cbn. lia.
    + intros i Hi. destruct (decide (i = n)) as [->|Hne].
      * rewrite lookup_app_r by lia. rewrite Hlen, Nat.sub_diag. by rewrite Hx.
      * rewrite lookup_app_l by lia. apply Hlookup. lia.
Qed.

Lemma pushUnder_own {A} (key : jsstring) (entry : A)
    (object : gmap jsstring (list A)) :
  key ∉ inheritedKeys →
  pushUnder key entry object
  = Ok (<[key := default [] (object !! key) ++ [entry]]> object).
Proof.
  intros Hkey. unfold pushUnder.
  destruct (object !! key); [done|]. by rewrite decide_False.
Qed.

Lemma pushUnder_Ok {A} (key : jsstring) (entry : A)
    (object object' : gmap jsstring (list A)) :
  pushUnder key entry object = Ok object' →
  object' = <[key := default [] (object !! key) ++ [entry]]> object.
Proof.
  unfold pushUnder. destruct (object !! key); [by intros [= <-]|].
  destruct (decide _); [done|]. by intros [= <-].
Qed.

Lemma pushUnder_inherited {A} (key : jsstring) (entry : A)
    (object : gmap jsstring (list A)) :
  key ∈ inheritedKeys → object !! key = None →
  pushUnder key entry object = Throw TypeError.
Proof. intros Hkey Hnone. unfold pushUnder. by rewrite Hnone, decide_True. Qed.

Lemma plainSpeakers_check dialogue :
  forallb hasPlainSpeaker dialogue = true → plainSpeakers dialogue.
Proof.
  intros Hall m Hm. apply list_elem_of_In in Hm.
  rewrite forallb_forall in Hall. specialize (Hall m Hm).
  unfold hasPlainSpeaker in Hall.
  by apply negb_true_iff, bool_decide_eq_false in Hall.
Qed.

Section sentiment.
Context `{Host}.

Lemma sentimentAt_content dialogue i m text :
  dialogue !! i = Some m → content m = Some text →
  sentimentAt dialogue i = Some (analyzeSentimentScore text).
Proof. intros Hm Hc. unfold sentimentAt. rewrite Hm. cbn. by rewrite Hc. Qed.

Lemma wellFormed_lookup dialogue i :
  wellFormed dialogue → (i < length dialogue)%nat →
  ∃ m text, dialogue !! i = Some m ∧ content m = Some text.
Proof.
  intros Hwf Hi. destruct (lookup_lt_is_Some_2 dialogue i Hi) as [m Hm].
  destruct (Hwf m) as [text Htext]; [by eapply list_elem_of_lookup_2|].
  by exists m, text.
Qed.

Lemma trendPointAt_content dialogue i m text :
  dialogue !! i = Some m → content m = Some text →
  trendPointAt dialogue i
  = Some (TrendPoint i (analyzeSentimentScore text) (speaker m) (timestamp m)).
Proof.
  intros Hm Hc. unfold trendPointAt.
  rewrite (sentimentAt_content _ _ _ _ Hm Hc), Hm. done.
Qed.

Lemma omap_seq_snoc {A} (f : nat → option A) (j : nat) :
  omap f (seq 0 (Datatypes.S j))
  = omap f (seq 0 j) ++ match f j with Some x => [x] | None => [] end.
Proof. rewrite seq_S, omap_app. cbn. by destruct (f j). Qed.

Lemma turningPointAt_first dialogue : turningPointAt dialogue 0 = None.
Proof.
  unfold turningPointAt.
  destruct (dialogue !! 0%nat) as [m|]; cbn; [|done].
  destruct (content m); cbn; [|done].
  destruct (sentimentAt dialogue 0); cbn; [|done].
  by destruct (sentimentAt dialogue (0 - 0)).
Qed.

Lemma sentimentStep_spec dialogue j m vars :
  wellFormed dialogue → propertyKey (speaker m) ∉ inheritedKeys →
  dialogue !! j = Some m →
  trendInvariant dialogue j vars →
  ∃ vars', sentimentStep vars m j = Ok vars'
           ∧ trendInvariant dialogue (Datatypes.S j) vars'.
Proof.
  intros Hwf Hplain Hm [Htrend Hturning].
  destruct vars as [[[trend counts] turning] participants].
  cbn [fst snd] in Htrend, Hturning.
  assert (j < length dialogue)%nat as Hj by by eapply lookup_lt_Some.
  destruct (Hwf m) as [text Htext]; [by eapply list_elem_of_lookup_2|].
  destruct (omap_seq_total (trendPointAt dialogue) j) as [Hlen Hlookup].
  { intros i Hi. destruct (wellFormed_lookup dialogue i Hwf) as (mi & ti & Hmi & Hti);
      [lia|]. rewrite (trendPointAt_content _ _ _ _ Hmi Hti). by eexists. }
  unfold trendInvariant.
  rewrite !omap_seq_snoc, (trendPointAt_content _ _ _ _ Hm Htext).
  subst trend turning.
  set (trend := omap (trendPointAt dialogue) (seq 0 j)) in *.
  set (turning := omap (turningPointAt dialogue) (seq 0 j)) in *.
  clearbody trend turning.
  unfold sentimentStep. rewrite Htext. cbn [mbind outcome_bind receiver].
  rewrite pushUnder_own by done.
  destruct j as [|j].
  - rewrite turningPointAt_first. cbn.
    eexists. split; [done|]. cbn. by rewrite ?app_nil_r.
  - unfold turningPointAt.
    replace (Datatypes.S j - 1)%nat with j by lia.
    destruct (wellFormed_lookup dialogue j Hwf) as (mp & tp & Hmp & Htp); [lia|].
    rewrite (sentimentAt_content _ _ _ _ Hm Htext).
    rewrite (sentimentAt_content _ _ _ _ Hmp Htp).
    rewrite Hm. cbn. rewrite Htext. cbn.
    rewrite lookup_app_l by lia. rewrite Hlookup by lia.
    rewrite (trendPointAt_content _ _ _ _ Hmp Htp). cbn.
    destruct (Math_abs _ >? Num (5 # 10))%js;
      eexists; (split; [done|]); cbn; by rewrite ?app_nil_r.
Qed.

Lemma sentimentStep_participants dialogue j m vars vars' :
  dialogue !! j = Some m → sentimentStep vars m j = Ok vars' →
  participantsInvariant dialogue j vars.2 →
  participantsInvariant dialogue (Datatypes.S j) vars'.2.
Proof.
  intros Hm. destruct vars as [[[trend counts] turning] participants].
  unfold sentimentStep.
  destruct (content m) as [text|]; cbn [mbind outcome_bind receiver]; [|done].
  destruct (pushUnder _ _ participants) as [participants'|] eqn:Hpush;
    cbn [mbind outcome_bind]; [|done].
  apply pushUnder_Ok in Hpush as ->.
  match goal with
  | |- context [mbind _ ?turn] => destruct turn as [turning'|]; cbn; [|done]
  end.
  unfold participantsInvariant. intros [= <-] Hold i mi Hi Hmi. cbn.
  destruct (decide (i = j)) as [->|Hne].
  - assert (mi = m) as -> by congruence. rewrite lookup_insert_eq.
    eexists _, _. split; [done|].
    split; [apply elem_of_app; right; apply list_elem_of_here | done].
  - destruct (Hold i mi) as (entries & entry & Hentries & Hentry & Hindex);
      [lia|done|].
    destruct (decide (propertyKey (speaker m) = propertyKey (speaker mi)))
      as [Hkey|Hkey].
    + rewrite Hkey, lookup_insert_eq, Hentries. cbn.
      eexists _, entry. split; [done|]. split; [|done].
      apply elem_of_app. by left.
    + rewrite lookup_insert_ne by done. by exists entries, entry.
Qed.

Lemma analyzeSentiment_loop dialogue :
  wellFormed dialogue → plainSpeakers dialogue →
  ∃ vars, forEach sentimentStep dialogue 0%nat ([], Distribution 0 0 0, [], ∅)
          = Ok vars
          ∧ trendInvariant dialogue (length dialogue) vars
          ∧ participantsInvariant dialogue (length dialogue) vars.2.
Proof.
  intros Hwf Hplain.
  apply (forEach_run
           (fun j vars => trendInvariant dialogue j vars
                          ∧ participantsInvariant dialogue j vars.2)
           sentimentStep dialogue 0%nat).
  - split; [done|]. intros i m Hi. lia.
  - intros s m k Hm [Htrend Hparticipants]. cbn in *.
    assert (propertyKey (speaker m) ∉ inheritedKeys) as Hkey
      by (apply Hplain; by eapply list_elem_of_lookup_2).
    destruct (sentimentStep_spec dialogue k m s Hwf Hkey Hm Htrend)
      as (s' & Hstep & Htrend').
    exists s'. split; [done|]. split; [done|].
    by eapply sentimentStep_participants.
Qed.

Lemma turning_event_quotes_content text change :
  isSubstring (substring0 30 text) (generateTurningPointEvent text change).
Proof.
  unfold generateTurningPointEvent, isSubstring.
  destruct (change >? Num (5 # 10))%js.
  - exists (utf16 "情感转折：变得更加积极 " ++ [34%N]), (utf16 "..." ++ [34%N]).
    apply app_assoc.
  - exists (utf16 "情感转折：出现负面情绪 " ++ [34%N]), (utf16 "..." ++ [34%N]).
    apply app_assoc.
Qed.
End sentiment.


(** ** Missing content, missing speaker *)

Lemma detectTopics_nonempty text : detectTopics text ≠ [].
Proof. unfold detectTopics. by destruct (map fst _). Qed.

Lemma increment_nonempty topic counts : increment topic counts ≠ [].
Proof.
  destruct counts as [|[name value] rest]; cbn; [done|].
  by destruct (decide (name = topic)).
Qed.

Lemma analyzeThemeTransitions_total dialogue :
  wellFormed dialogue → isOk (analyzeThemeTransitions dialogue) = true.
Proof.
  intros Hwf. unfold analyzeThemeTransitions.
  destruct (forEach _ dialogue 0%nat _) as [vars|e] eqn:Hloop; [done|].
  apply forEach_throw_inv in Hloop as (m & [transitions last] & j & Hm & Hthrow).
  destruct (Hwf m Hm) as [text Htext]. by rewrite Htext in Hthrow.
Qed.

Section malformed.
Context `{Host}.

Lemma analyzeTopics_throws dialogue m :
  m ∈ dialogue → content m = None → analyzeTopics dialogue = Throw TypeError.
Proof.
  intros Hm Hnone. unfold analyzeTopics.
  rewrite (forEach_throws _ _ _ _ m); [done..|].
  intros [[counts segments] evolution] j. unfold topicStep. by rewrite Hnone.
Qed.

Lemma analyzeSentiment_throws dialogue m :
  m ∈ dialogue → content m = None → analyzeSentiment dialogue = Throw TypeError.
Proof.
  intros Hm Hnone. unfold analyzeSentiment.
  rewrite (forEach_throws _ _ _ _ m); [done..|].
  intros [[[trend counts] turning] participants] j. unfold sentimentStep.
  by rewrite Hnone.
Qed.

Lemma analyzeKeyPoints_throws dialogue m :
  m ∈ dialogue → content m = None → analyzeKeyPoints dialogue = Throw TypeError.
Proof.
  intros Hm Hnone. unfold analyzeKeyPoints.
  rewrite (forEach_throws _ _ _ _ m); [done..|].
  intros [[[points controversial] consensus] references] j. unfold keyPointStep.
  by rewrite Hnone.
Qed.

Lemma analyzeKeyPoints_total dialogue :
  wellFormed dialogue → isOk (analyzeKeyPoints dialogue) = true.
Proof.
  intros Hwf. unfold analyzeKeyPoints.
  destruct (forEach _ dialogue 0%nat _) as [vars|e] eqn:Hloop.
  - by destruct vars as [[[points controversial] consensus] references].
  - apply forEach_keyPointStep_throw_inv in Hloop as (m & Hm & Hnone); [|done].
    destruct (Hwf m Hm) as [text Htext]. congruence.
Qed.

Lemma topics_fold_nonempty text index who when topics acc :
  topics ≠ [] ∨ acc.1 ≠ [] →
  (fold_left
     (fun '(counts, segments) topic =>
        (increment topic counts,
         if (50 <? length text)%nat
         then segments ++
              [KeySegment index who when topic
                          (substring0 100 text ++ utf16 "...") text]
         else segments))
     topics acc).1 ≠ [].
Proof.
  revert acc. induction topics as [|topic topics IH]; intros [counts segments] Hne.
  - by destruct Hne.
  - cbn [fold_left]. apply IH. right. apply increment_nonempty.
Qed.

Lemma analyzeTopics_total dialogue :
  wellFormed dialogue → dialogue ≠ [] → isOk (analyzeTopics dialogue) = true.
Proof.
  intros Hwf Hne. unfold analyzeTopics.
  destruct (forEach_run (fun j vars => (0 < j)%nat → vars.1.1 ≠ [])
              (topicStep dialogue) dialogue 0%nat ([], [], []))
    as (vars & Hloop & Hcounts).
  - cbn. lia.
  - intros [[counts segments] evolution] m k Hm _. cbn.
    destruct (Hwf m) as [text Htext]; [by eapply list_elem_of_lookup_2|].
    unfold topicStep. rewrite Htext. cbn.
    pose proof (topics_fold_nonempty text k (speaker m) (timestamp m)
                  (detectTopics text) (counts, segments)
                  (or_introl (detectTopics_nonempty text))) as Hfold.
    destruct (fold_left _ (detectTopics text) (counts, segments))
      as [counts' segments'].
    eexists. split; [done|]. by intros _.
  - rewrite Hloop. cbn. destruct vars as [[counts segments] evolution].
    pose proof (analyzeThemeTransitions_total dialogue Hwf) as Htrans.
    destruct (analyzeThemeTransitions dialogue) as [transitions|]; [|done].
    cbn in *.
    destruct counts as [|entry counts]; [|done].
    exfalso. apply Hcounts; [|done]. destruct dialogue; [done|cbn; lia].
Qed.
End malformed.

(** C5 (as amended).  A turn without content makes [analyzeTopics],
    [analyzeSentiment] and [analyzeKeyPoints] raise a [TypeError] for the
    whole conversation.  A turn without speaker is not rejected: when every
    turn has content, [analyzeKeyPoints] returns and [analyzeTopics] returns
    on a non-empty conversation; when moreover no speaker is named like a
    property inherited from [Object.prototype], which a missing speaker is
    not, [analyzeSentiment] returns, the trend entry of a turn carries the
    turn's speaker unchanged ([undefined] when missing), and the turn has an
    entry in [participantsSentiment] under its speaker's property key, which
    is ["undefined"] for a missing speaker. *)
Theorem missing_content_raises_missing_speaker_passes `{Host}
    (dialogue : list message) :
  ((∃ m, m ∈ dialogue ∧ content m = None) →
     analyzeTopics dialogue = Throw TypeError
     ∧ analyzeSentiment dialogue = Throw TypeError
     ∧ analyzeKeyPoints dialogue = Throw TypeError)
  ∧ (wellFormed dialogue →
     (dialogue ≠ [] → isOk (analyzeTopics dialogue) = true)
     ∧ isOk (analyzeKeyPoints dialogue) = true
     ∧ (plainSpeakers dialogue →
        ∃ result,
          analyzeSentiment dialogue = Ok result
          ∧ ∀ i m, dialogue !! i = Some m →
              ((i < 50)%nat →
                 ∃ point, sentimentTrend result !! i = Some point
                          ∧ trend_timeIndex point = i
                          ∧ trend_speaker point = speaker m)
              ∧ ∃ entries entry,
                  participantsSentiment result !! propertyKey (speaker m)
                  = Some entries
                  ∧ entry ∈ entries ∧ pe_timeIndex entry = i))
  ∧ propertyKey None = utf16 "undefined"
  ∧ propertyKey None ∉ inheritedKeys.
Proof.
  split; [|split; [|split; [done|]]].
  - intros (m & Hm & Hnone).
    by rewrite (analyzeTopics_throws _ m), (analyzeSentiment_throws _ m),
      (analyzeKeyPoints_throws _ m).
  - intros Hwf. split; [by apply analyzeTopics_total|].
    split; [by apply analyzeKeyPoints_total|]. intros Hplain.
    destruct (analyzeSentiment_loop dialogue Hwf Hplain)
      as (vars & Hloop & [Htrend _] & Hparticipants).
    unfold analyzeSentiment. rewrite Hloop. cbn.
    destruct vars as [[[trend counts] turning] participants]. cbn in *.
    eexists. split; [done|]. cbn. intros i m Hm.
    assert (i < length dialogue)%nat as Hi by by eapply lookup_lt_Some.
    split; [|by apply Hparticipants].
    intros Hcap. destruct (Hwf m) as [text Htext]; [by eapply list_elem_of_lookup_2|].
    destruct (omap_seq_total (trendPointAt dialogue) (length dialogue))
      as [_ Hlookup].
    { intros k Hk. destruct (wellFormed_lookup dialogue k Hwf) as (mk & tk & Hmk & Htk);
        [done|]. rewrite (trendPointAt_content _ _ _ _ Hmk Htk). by eexists. }
    rewrite Htrend, lookup_take_lt by done. rewrite Hlookup by done.
    rewrite (trendPointAt_content _ _ _ _ Hm Htext). by eexists.
  - intros Hin. vm_compute in Hin.
    repeat (apply elem_of_cons in Hin as [Hin|Hin]; [discriminate Hin|]).
    by apply elem_of_nil in Hin.
Qed.

(** ** The properties on concrete conversations *)

Lemma wellFormed_check dialogue :
  forallb hasContent dialogue = true → wellFormed dialogue.
Proof.
  intros Hall m Hm. apply list_elem_of_In in Hm.
  rewrite forallb_forall in Hall. specialize (Hall m Hm).
  unfold hasContent in Hall. by destruct (content m).
Qed.

(** C5, the claim as stated fails: a turn without content makes the three
    analyses raise. *)
Lemma broken_dialogue_raises :
  @analyzeSentiment asciiHost brokenDialogue = Throw TypeError
  ∧ analyzeTopics brokenDialogue = Throw TypeError
  ∧ @analyzeKeyPoints asciiHost brokenDialogue = Throw TypeError.
Proof. repeat split; vm_compute; reflexivity. Qed.

Lemma missing_content_witness :
  ((∃ m, m ∈ brokenDialogue ∧ content m = None)
   ∧ @analyzeSentiment asciiHost brokenDialogue = Throw TypeError)
  ∧ (wellFormed anonymousDialogue
     ∧ isOk (@analyzeKeyPoints asciiHost anonymousDialogue) = true)
  ∧ (plainSpeakers anonymousDialogue
     ∧ ∃ result,
         @analyzeSentiment asciiHost anonymousDialogue = Ok result
         ∧ ∀ i m, anonymousDialogue !! i = Some m →
             ((i < 50)%nat →
                ∃ point, sentimentTrend result !! i = Some point
                         ∧ trend_timeIndex point = i
                         ∧ trend_speaker point = speaker m)
             ∧ ∃ entries entry,
                 participantsSentiment result !! propertyKey (speaker m)
                 = Some entries
                 ∧ entry ∈ entries ∧ pe_timeIndex entry = i).
Proof.
  assert (∃ m, m ∈ brokenDialogue ∧ content m = None) as Hbroken.
  { exists (Message (Some (utf16 "B")) None None).
    split; [apply list_elem_of_further, list_elem_of_here | reflexivity]. }
  assert (wellFormed anonymousDialogue) as Hwf
    by (apply wellFormed_check; reflexivity).
  assert (plainSpeakers anonymousDialogue) as Hplain
    by (apply plainSpeakers_check; reflexivity).
  split; [|split]; (split; [done|]).
  - apply (proj1 (missing_content_raises_missing_speaker_passes
                    (H:=asciiHost) brokenDialogue) Hbroken).
  - apply (proj1 (proj2 (missing_content_raises_missing_speaker_passes
                           (H:=asciiHost) anonymousDialogue)) Hwf).
  - apply (proj1 (proj2 (missing_content_raises_missing_speaker_passes
                           (H:=asciiHost) anonymousDialogue)) Hwf).
    exact Hplain.
Defined.

Lemma consensus_level_witness :
  match @calculateConsensusLevel asciiHost disputeDialogue objection with
  | Ok level =>
    ∃ q, level = Num q ∧ (1 # 3 <= q)%Q ∧ (level <? Num (3 # 10))%js = false
  | Throw _ => ∃ m', m' ∈ disputeDialogue ∧ content m' = None
  end.
Proof.
  apply (proj1 (consensus_level_at_least_a_third (H:=asciiHost) disputeDialogue)
               (Message (Some (utf16 "B")) (Some objection) None)).
  - apply list_elem_of_further, list_elem_of_here.
  - reflexivity.
Defined.



Lemma detectTopics_witness :
  ((∃ topic, topicMatches (utf16 "项目的代码") topic)
   ∧ ∀ topic, topic ∈ detectTopics (utf16 "项目的代码")
              ↔ topicMatches (utf16 "项目的代码") topic)
  ∧ ((¬ ∃ topic, topicMatches (utf16 "hello") topic)
     ∧ detectTopics (utf16 "hello") = [fallbackTopic]).
Proof.
  assert (∃ topic, topicMatches (utf16 "项目的代码") topic) as Hsome.
  { exists (utf16 "业务讨论"). apply detected_topic_matches.
    vm_compute. apply list_elem_of_here. }
  assert (¬ ∃ topic, topicMatches (utf16 "hello") topic) as Hnone.
  { intros [topic Hmatch]. apply detected_topic_matches in Hmatch.
    vm_compute in Hmatch. inversion Hmatch. }
  split; (split; [done|]).
  - apply (proj1 (detectTopics_returns_matching_categories (utf16 "项目的代码"))
                 Hsome).
  - apply (proj1 (proj2 (detectTopics_returns_matching_categories (utf16 "hello")))
                 Hnone).
Defined.

(** C1, on the code.  On the empty conversation [analyzeTopics] raises (its
    [reduce] over the keys of an empty object has no initial value) and the
    health score of [analyzeSentiment] is NaN (0 / 0); the sentiment counts
    are 0, and there are no turning points and no key points. *)
Theorem empty_conversation_outcomes `{Host} :
  analyzeTopics [] = Throw TypeError
  ∧ (∃ result,
       analyzeSentiment [] = Ok result
       ∧ healthScore result = NaN
       ∧ map bar_value (sentimentDistribution result) = [0; 0; 0]%nat
       ∧ turningPoints result = [])
  ∧ (∃ result, analyzeKeyPoints [] = Ok result ∧ keyPoints result = []).
Proof.
  split; [reflexivity|]. split; eexists; (split; [reflexivity|]); by vm_compute.
Qed.

(** C2, on the code.  In [disputeDialogue] the second turn qualifies as a
    key point and is not similar to the other turn, yet its consensus level
    is 1/3 (the turn counts itself), not below 0.3, and
    [analyzeKeyPoints] records no controversial topic. *)
Theorem dispute_is_not_recorded :
  (100 <? length objection)%nat = true
  ∧ (@calculateSimilarity asciiHost approval objection >? Num (6 # 10))%js = false
  ∧ @calculateConsensusLevel asciiHost disputeDialogue objection = Ok (Num (1 # 3))
  ∧ (Num (1 # 3) <? Num (3 # 10))%js = false
  ∧ controversialTopics <$> @analyzeKeyPoints asciiHost disputeDialogue = Ok [].
Proof. repeat split; by vm_compute. Qed.

(** C4, on the code.  In [worriedDialogue] both turns score -0.6; the
    specified health score is 30, the one [analyzeSentiment] returns is 100,
    with the level label of a healthy conversation. *)
Theorem worried_dialogue_health :
  map (sentimentAt (H:=asciiHost) worriedDialogue) [0; 1]%nat
  = [Some (Num (- (3 # 5))); Some (Num (- (3 # 5)))]
  ∧ (specifiedHealthScore [- (3 # 5); - (3 # 5)] == 30)%Q
  ∧ healthScore <$> @analyzeSentiment asciiHost worriedDialogue = Ok (Num 100)
  ∧ healthLevel <$> @analyzeSentiment asciiHost worriedDialogue
    = Ok (utf16 "良好").
Proof. repeat split; by vm_compute. Qed.


(** * Further properties of the service *)

(** ** Similarity at its extremes *)

Lemma Qred_eq_iff (q c : Q) : Qred c = c → Qred q = c ↔ (q == c)%Q.
Proof.
  intros Hc. split.
  - intros <-. symmetry. apply Qred_correct.
  - intros Heq. rewrite <- Hc. by apply Qred_complete.
Qed.

(** X1.  The similarity of two texts is 1 exactly when their token sets are
    equal, and 0 exactly when the token sets are disjoint. *)
Theorem similarity_extremes `{Host} (a b : jsstring) :
  (calculateSimilarity a b = Num 1 ↔ tokenize a = tokenize b)
  ∧ (calculateSimilarity a b = Num 0 ↔ tokenize a ## tokenize b).
Proof.
  rewrite calculateSimilarity_jaccard. unfold jaccard.
  set (A := tokenize a). set (B := tokenize b).
  pose proof (inject_nat_pos _ (union_size_nonzero a b)) as Hpos.
  fold A B in Hpos. split.
  - split.
    + intros [= Hone]. apply Qred_eq_iff in Hone; [|done].
      assert (inject_Z (Z.of_nat (size (A ∩ B)))
              == inject_Z (Z.of_nat (size (A ∪ B))))%Q as Hsize.
      { transitivity (inject_Z (Z.of_nat (size (A ∪ B)))
                      * (inject_Z (Z.of_nat (size (A ∩ B)))
                         / inject_Z (Z.of_nat (size (A ∪ B)))))%Q.
        - symmetry. apply Qmult_div_r, Qnot_eq_sym, Qlt_not_eq, Hpos.
        - rewrite Hone. ring. }
      unfold Qeq in Hsize. simpl in Hsize.
      assert (A ∩ B = A ∪ B) as Heq
        by (apply set_subseteq_size_eq; [set_solver|lia]).
      apply set_eq. intros w. split; intros Hw.
      * assert (w ∈ A ∪ B) as Hu by set_solver. rewrite <- Heq in Hu. set_solver.
      * assert (w ∈ A ∪ B) as Hu by set_solver. rewrite <- Heq in Hu. set_solver.
    + intros ->. rewrite (idemp_L (∩)), (idemp_L (∪)) in *.
      f_equal. apply Qred_eq_iff; [done|]. field. lra.
  - split.
    + intros [= Hzero]. apply Qred_eq_iff in Hzero; [|done].
      assert (inject_Z (Z.of_nat (size (A ∩ B))) == 0)%Q as Hsize.
      { transitivity (inject_Z (Z.of_nat (size (A ∪ B)))
                      * (inject_Z (Z.of_nat (size (A ∩ B)))
                         / inject_Z (Z.of_nat (size (A ∪ B)))))%Q.
        - symmetry. apply Qmult_div_r, Qnot_eq_sym, Qlt_not_eq, Hpos.
        - rewrite Hzero. ring. }
      unfold Qeq in Hsize. simpl in Hsize.
      apply disjoint_intersection_L, leibniz_equiv, size_empty_iff. lia.
    + intros Hdisjoint. apply disjoint_intersection_L in Hdisjoint.
      rewrite Hdisjoint, size_empty. reflexivity.
Qed.

(** ** Scores of texts without white space *)

Lemma split_go_unspaced piece s :
  Forall (fun c => isWhiteSpace c = false) s →
  split_go piece false s = [piece ++ s].
Proof.
  intros Hs. revert piece. induction Hs as [|c s Hc Hs IH]; intros piece; simpl.
  - by rewrite app_nil_r.
  - rewrite Hc, IH. by rewrite <- app_assoc.
Qed.

Lemma lexiconMatches_singleton bucket token :
  lexiconMatches bucket [token] = if bool_decide (token ∈ bucket) then 1%nat else 0%nat.
Proof.
  unfold lexiconMatches. rewrite filter_cons, filter_nil.
  case_bool_decide; by destruct (decide _).
Qed.

Lemma sentiment_buckets_disjoint token :
  token ∈ lexiconBucket "positive" → token ∉ lexiconBucket "negative".
Proof.
  assert (Forall (fun t => t ∉ lexiconBucket "negative") (lexiconBucket "positive"))
    as Hall by by apply (bool_decide_unpack _).
  rewrite Forall_forall in Hall. apply Hall.
Qed.

(** X2.  A text whose lower-case form has no white space is a single token:
    its score is 0.3 when that token is itself a positive indicator, -0.3
    when it is a negative indicator, and 0 otherwise, whatever indicators
    occur inside it. *)
Theorem unspaced_text_score `{Host} (text : jsstring) :
  Forall (fun c => isWhiteSpace c = false) (toLowerCase text) →
  analyzeSentimentScore text
  = if bool_decide (toLowerCase text ∈ lexiconBucket "positive") then Num (3 # 10)
    else if bool_decide (toLowerCase text ∈ lexiconBucket "negative")
         then Num (- 3 # 10)
         else Num 0.
Proof.
  intros Hunspaced. unfold analyzeSentimentScore, splitWhitespace.
  rewrite (split_go_unspaced [] _ Hunspaced), app_nil_l.
  rewrite sentimentIndicators_buckets, scoreEntries_buckets.
  rewrite !lexiconMatches_singleton.
  case_bool_decide as Hpos.
  - rewrite bool_decide_eq_false_2 by by apply sentiment_buckets_disjoint.
    reflexivity.
  - case_bool_decide; reflexivity.
Qed.

Lemma unspaced_text_score_witness :
  Forall (fun c => isWhiteSpace c = false)
         (toLowerCase (Host:=asciiHost) (utf16 "项目有问题"))
  ∧ @analyzeSentimentScore asciiHost (utf16 "项目有问题") = Num 0.
Proof.
  assert (Forall (fun c => isWhiteSpace c = false)
                 (toLowerCase (Host:=asciiHost) (utf16 "项目有问题"))) as Hunspaced
    by (by apply (bool_decide_unpack _)).
  split; [done|].
  apply (unspaced_text_score (H:=asciiHost) _ Hunspaced).
Defined.

(** ** Point strength and key points *)

Lemma jsdiv_Num (x y : Q) :
  Qeq_bool y 0 = false → (Num x / Num y)%js = Num (Qred (x / y)).
Proof. intros Hy. unfold jsdiv. by rewrite Hy. Qed.

Lemma lengthScore_bounds (n : nat) :
  ∃ q, Math_min (Num 1) (ofNat n / Num 200)%js = Num q
       ∧ (0 <= q <= 1)%Q ∧ (q <= inject_Z (Z.of_nat n) / 200)%Q.
Proof.
  unfold ofNat. rewrite jsdiv_Num by done.
  destruct (Math_min_Num 1 (Qred (inject_Z (Z.of_nat n) / 200))) as (q & -> & Hq).
  exists q. split; [done|]. rewrite Hq, Qred_correct.
  assert (0 <= inject_Z (Z.of_nat n))%Q by (rewrite <- (Zle_Qle 0); lia).
  unfold Qdiv. change (/ 200)%Q with (1 # 200)%Q.
  repeat split.
  - apply Q.min_glb; lra.
  - apply Q.le_min_l.
  - apply Q.le_min_r.
Qed.

Lemma calculatePointStrength_value (text : jsstring) :
  ∃ q, calculatePointStrength text = Num q
       ∧ (0 <= q <= 1)%Q
       ∧ (q <= (inject_Z (Z.of_nat (length text)) / 200 + (8 # 10)) / (18 # 10))%Q.
Proof.
  unfold calculatePointStrength.
  destruct (lengthScore_bounds (length text)) as (m & -> & [Hm0 Hm1] & Hm).
  set (k := if containsKeyKeywords text then Num (5 # 10) else Num 0).
  set (st := if hasClearStructure text then Num (3 # 10) else Num 0).
  assert (∃ kq, k = Num kq ∧ (0 <= kq <= 5 # 10)%Q) as (kq & -> & Hk).
  { subst k. destruct (containsKeyKeywords text); eexists; (split; [done|]); lra. }
  assert (∃ sq, st = Num sq ∧ (0 <= sq <= 3 # 10)%Q) as (sq & -> & Hs).
  { subst st. destruct (hasClearStructure text); eexists; (split; [done|]); lra. }
  unfold jsadd. rewrite jsdiv_Num by done.
  eexists. split; [done|]. rewrite !Qred_correct.
  unfold Qdiv in *. change (/ (18 # 10))%Q with (10 # 18)%Q.
  change (/ 200)%Q with (1 # 200)%Q in *.
  destruct Hk, Hs. split; [split|]; lra.
Qed.

(** X3.  The point strength of a text is a number between 0 and 1, and the
    importance derived from it, [Math.round(pointStrength * 100)], is an
    integer between 0 and 100. *)
Theorem point_strength_bounds (text : jsstring) :
  ∃ q z, calculatePointStrength text = Num q
         ∧ (0 <= q <= 1)%Q
         ∧ Math_round (calculatePointStrength text * Num 100)%js = Num (inject_Z z)
         ∧ (0 <= z <= 100)%Z.
Proof.
  destruct (calculatePointStrength_value text) as (q & Hq & [Hq0 Hq1] & _).
  exists q, (Qfloor (Qred (q * 100) + (1 # 2))). rewrite Hq.
  split; [done|]. split; [done|]. split; [reflexivity|].
  split.
  - apply (Z.le_trans _ (Qfloor 0)); [done|].
    apply Qfloor_resp_le. rewrite Qred_correct. lra.
  - apply (Z.le_trans _ (Qfloor (100 + (1 # 2)))); [|done].
    apply Qfloor_resp_le. rewrite Qred_correct. lra.
Qed.

(** X4.  A turn of at most 92 code units is never a key point, whatever
    markers it contains: its point strength cannot exceed 0.7, so the loop
    of [analyzeKeyPoints] passes over it without recording anything. *)
Theorem short_turn_is_no_key_point `{Host} (dialogue : list message)
    (vars : list keyPoint * list controversialTopic * list consensusPoint
            * list evidenceReference)
    (m : message) (text : jsstring) (index : nat) :
  content m = Some text → (length text ≤ 92)%nat →
  qualifies text = false ∧ keyPointStep dialogue vars m index = Ok vars.
Proof.
  intros Hcontent Hshort.
  assert (qualifies text = false) as Hq.
  { unfold qualifies.
    destruct (calculatePointStrength_value text) as (q & -> & _ & Hbound).
    apply orb_false_iff. split; [|apply Nat.ltb_ge; lia].
    apply Qltb_ge. apply (inject_nat_le _ 92) in Hshort.
    change (inject_Z (Z.of_nat 92)) with 92%Q in Hshort.
    unfold Qdiv in Hbound. change (/ (18 # 10))%Q with (10 # 18)%Q in Hbound.
    change (/ 200)%Q with (1 # 200)%Q in Hbound. lra. }
  split; [done|].
  destruct vars as [[[points controversial] consensus] references].
  unfold keyPointStep. rewrite Hcontent. cbn [mbind outcome_bind receiver].
  unfold qualifies in Hq. by rewrite Hq.
Qed.

Lemma short_turn_witness :
  (content (turn "A" "这是最重要的核心问题，首先要解决") = Some (utf16 "这是最重要的核心问题，首先要解决")
   ∧ (length (utf16 "这是最重要的核心问题，首先要解决") ≤ 92)%nat)
  ∧ qualifies (utf16 "这是最重要的核心问题，首先要解决") = false.
Proof.
  assert (length (utf16 "这是最重要的核心问题，首先要解决") ≤ 92)%nat as Hshort
    by (vm_compute; lia).
  split; [split; [reflexivity | exact Hshort]|].
  apply (proj1 (short_turn_is_no_key_point (H:=asciiHost) [] ([], [], [], [])
                  (turn "A" "这是最重要的核心问题，首先要解决") _ 0%nat
                  eq_refl Hshort)).
Defined.

(** ** Consensus level *)

Lemma filterM_pure {A} (p : A → outcome bool) (keep : A → bool) (l : list A) :
  (∀ x, x ∈ l → p x = Ok (keep x)) →
  filterM p l = Ok (filter (fun x => keep x = true) l).
Proof.
  induction l as [|x l IH]; intros Hp; [done|].
  cbn [filterM]. rewrite (Hp x) by apply list_elem_of_here.
  rewrite IH by (intros y Hy; apply Hp; by apply list_elem_of_further).
  cbn [mbind outcome_bind]. rewrite filter_cons.
  destruct (keep x); by destruct (decide _).
Qed.

(** X5.  On a conversation whose turns all have content, the consensus
    level of a text is [min(1, n / 3)] for [n] the number of turns similar
    to it, and it exceeds 0.7, the threshold of a consensus point, exactly
    when at least three turns are similar. *)
Theorem consensus_level_counts_similar_turns `{Host}
    (dialogue : list message) (text : jsstring) :
  wellFormed dialogue →
  ∃ q, calculateConsensusLevel dialogue text = Ok (Num q)
       ∧ (q == Qmin 1 (inject_Z (Z.of_nat (length (similarTurns dialogue text))) / 3))%Q
       ∧ ((Num q >? Num (7 # 10))%js = true
          ↔ (3 ≤ length (similarTurns dialogue text))%nat).
Proof.
  intros Hwf. unfold calculateConsensusLevel.
  rewrite (filterM_pure _ (isSimilarTo text)).
  - cbn [mbind outcome_bind]. fold (similarTurns dialogue text).
    set (n := length (similarTurns dialogue text)).
    unfold ofNat. rewrite jsdiv_Num by done.
    destruct (Math_min_Num 1 (Qred (inject_Z (Z.of_nat n) / 3))) as (q & -> & Hq).
    exists q. split; [done|]. rewrite Qred_correct in Hq. split; [done|].
    rewrite jsgt_Num, Hq. unfold Qdiv. change (/ 3)%Q with (1 # 3)%Q. split.
    + intros Hlevel. destruct (decide (3 ≤ n)%nat) as [|Hsmall]; [done|].
      exfalso. assert (n ≤ 2)%nat as Hn by lia.
      apply (inject_nat_le _ 2) in Hn.
      change (inject_Z (Z.of_nat 2)) with 2%Q in Hn.
      pose proof (Q.le_min_r 1 (inject_Z (Z.of_nat n) * (1 # 3))). lra.
    + intros Hn. apply (inject_nat_le 3) in Hn.
      change (inject_Z (Z.of_nat 3)) with 3%Q in Hn.
      assert (1 <= Qmin 1 (inject_Z (Z.of_nat n) * (1 # 3)))%Q
        by (apply Q.min_glb; lra).
      lra.
  - intros m Hm. destruct (Hwf m Hm) as [c Hc]. unfold isSimilarTo.
    by rewrite Hc.
Qed.

Lemma consensus_level_counts_witness :
  wellFormed disputeDialogue
  ∧ ∃ q, @calculateConsensusLevel asciiHost disputeDialogue objection = Ok (Num q)
         ∧ (q == Qmin 1 (inject_Z (Z.of_nat
                  (length (similarTurns (H:=asciiHost) disputeDialogue objection))) / 3))%Q
         ∧ ((Num q >? Num (7 # 10))%js = true
            ↔ (3 ≤ length (similarTurns (H:=asciiHost) disputeDialogue objection))%nat).
Proof.
  assert (wellFormed disputeDialogue) as Hwf
    by (apply wellFormed_check; reflexivity).
  split; [done|].
  apply (consensus_level_counts_similar_turns (H:=asciiHost) _ objection Hwf).
Defined.


(** ** The sentiment counters *)

Lemma bump_sum counts s :
  (positive (bump counts s) + neutral (bump counts s) + negative (bump counts s)
   = Datatypes.S (positive counts + neutral counts + negative counts))%nat.
Proof.
  unfold bump. destruct (s >? _)%js; [|destruct (s <? _)%js]; cbn; lia.
Qed.

Lemma jsgt_excludes_jslt (s : number) :
  (s >? Num (3 # 10))%js = true → (s <? Num (-3 # 10))%js = false.
Proof.
  destruct s as [q| | |]; try done.
  rewrite jsgt_Num. intros Hq. apply Qltb_ge. lra.
Qed.

Lemma fold_bump_counts scores counts :
  let final := fold_left bump scores counts in
  positive final
  = (positive counts
     + length (filter (fun s => (s >? Num (3 # 10))%js = true) scores))%nat
  ∧ negative final
    = (negative counts
       + length (filter (fun s => (s <? Num (-3 # 10))%js = true) scores))%nat
  ∧ (positive final + neutral final + negative final
     = positive counts + neutral counts + negative counts + length scores)%nat.
Proof.
  revert counts. induction scores as [|s scores IH]; intros counts; cbn zeta.
  - cbn. repeat split; lia.
  - cbn [fold_left]. destruct (IH (bump counts s)) as (Hp & Hn & Hsum).
    cbn zeta in Hp, Hn, Hsum. rewrite bump_sum in Hsum.
    rewrite !filter_cons. cbn [length].
    assert (positive (bump counts s)
            = positive counts
              + (if (s >? Num (3 # 10))%js then 1 else 0))%nat as Hpos.
    { unfold bump. destruct (s >? _)%js; [|destruct (s <? _)%js]; cbn; lia. }
    assert (negative (bump counts s)
            = negative counts
              + (if (s <? Num (-3 # 10))%js then 1 else 0))%nat as Hneg.
    { unfold bump. destruct (s >? _)%js eqn:Hgt.
      - rewrite (jsgt_excludes_jslt s Hgt). cbn. lia.
      - destruct (s <? _)%js; cbn; lia. }
    rewrite Hsum, Hp, Hn, Hpos, Hneg.
    destruct (s >? Num (3 # 10))%js, (s <? Num (-3 # 10))%js;
      repeat (destruct (decide _); try done); cbn [length]; repeat split; lia.
Qed.

Section counters.
Context `{Host}.

Lemma sentimentStep_counts vars m j vars' text :
  content m = Some text → sentimentStep vars m j = Ok vars' →
  vars'.1.1.2 = bump vars.1.1.2 (analyzeSentimentScore text).
Proof.
  intros Hcontent. destruct vars as [[[trend counts] turning] participants].
  unfold sentimentStep. rewrite Hcontent. cbn [mbind outcome_bind receiver].
  destruct (pushUnder _ _ participants) as [participants'|];
    cbn [mbind outcome_bind]; [|done].
  match goal with
  | |- context [mbind _ ?turn] =>
    destruct turn as [turning'|]; cbn [mbind outcome_bind]; [|done]
  end.
  by intros [= <-].
Qed.

Lemma scoresUpTo_snoc dialogue j m text :
  dialogue !! j = Some m → content m = Some text →
  scoresUpTo dialogue (Datatypes.S j)
  = scoresUpTo dialogue j ++ [analyzeSentimentScore text].
Proof.
  intros Hm Hc. unfold scoresUpTo.
  by rewrite omap_seq_snoc, (sentimentAt_content _ _ _ _ Hm Hc).
Qed.

Lemma analyzeSentiment_loop_counts dialogue :
  wellFormed dialogue → plainSpeakers dialogue →
  ∃ vars, forEach sentimentStep dialogue 0%nat ([], Distribution 0 0 0, [], ∅)
          = Ok vars
          ∧ trendInvariant dialogue (length dialogue) vars
          ∧ vars.1.1.2 = countsOf (scoresUpTo dialogue (length dialogue)).
Proof.
  intros Hwf Hplain.
  apply (forEach_run
           (fun j vars => trendInvariant dialogue j vars
                          ∧ vars.1.1.2 = countsOf (scoresUpTo dialogue j))
           sentimentStep dialogue 0%nat).
  - split; [done|]. reflexivity.
  - intros s m k Hm [Htrend Hcounts]. cbn [Nat.add] in *.
    assert (propertyKey (speaker m) ∉ inheritedKeys) as Hkey
      by (apply Hplain; by eapply list_elem_of_lookup_2).
    destruct (sentimentStep_spec dialogue k m s Hwf Hkey Hm Htrend)
      as (s' & Hstep & Htrend').
    exists s'. split; [done|]. split; [done|].
    destruct (Hwf m) as [text Htext]; [by eapply list_elem_of_lookup_2|].
    rewrite (sentimentStep_counts _ _ _ _ _ Htext Hstep), Hcounts.
    rewrite (scoresUpTo_snoc _ _ _ _ Hm Htext).
    unfold countsOf. by rewrite fold_left_app.
Qed.
End counters.

(** X6.  On a conversation whose turns all have content and in which no
    speaker is named like a property inherited from [Object.prototype], the
    three values of [sentimentDistribution] count the turns whose score is
    above 0.3, the turns that are neither, and the turns whose score is
    below -0.3; every turn is counted once, so the three values add up to
    the number of turns. *)
Theorem sentiment_distribution_counts_turns `{Host} (dialogue : list message) :
  wellFormed dialogue → plainSpeakers dialogue →
  ∃ result above between below,
    analyzeSentiment dialogue = Ok result
    ∧ map bar_value (sentimentDistribution result) = [above; between; below]
    ∧ above = length (filter (fun s => (s >? Num (3 # 10))%js = true)
                             (scoresUpTo dialogue (length dialogue)))
    ∧ below = length (filter (fun s => (s <? Num (-3 # 10))%js = true)
                             (scoresUpTo dialogue (length dialogue)))
    ∧ (above + between + below = length dialogue)%nat.
Proof.
  intros Hwf Hplain.
  destruct (analyzeSentiment_loop_counts dialogue Hwf Hplain)
    as (vars & Hloop & _ & Hcounts).
  unfold analyzeSentiment. rewrite Hloop. cbn [mbind outcome_bind].
  destruct vars as [[[trend counts] turning] participants]. cbn [fst snd] in Hcounts.
  eexists _, (positive counts), (neutral counts), (negative counts).
  split; [done|]. split; [done|].
  destruct (fold_bump_counts (scoresUpTo dialogue (length dialogue))
              (Distribution 0 0 0)) as (Hp & Hn & Hsum).
  cbn zeta in *. fold (countsOf (scoresUpTo dialogue (length dialogue))) in *.
  rewrite <- Hcounts in *. cbn in Hp, Hn, Hsum.
  split; [done|]. split; [done|]. rewrite Hsum. unfold scoresUpTo.
  apply omap_seq_total. intros i Hi.
  destruct (wellFormed_lookup dialogue i Hwf Hi) as (m & text & Hm & Htext).
  rewrite (sentimentAt_content _ _ _ _ Hm Htext). by eexists.
Qed.

Lemma sentiment_distribution_witness :
  (wellFormed worriedDialogue ∧ plainSpeakers worriedDialogue)
  ∧ ∃ result above between below,
      @analyzeSentiment asciiHost worriedDialogue = Ok result
      ∧ map bar_value (sentimentDistribution result) = [above; between; below]
      ∧ above = length (filter (fun s => (s >? Num (3 # 10))%js = true)
                               (scoresUpTo (H:=asciiHost) worriedDialogue
                                           (length worriedDialogue)))
      ∧ below = length (filter (fun s => (s <? Num (-3 # 10))%js = true)
                               (scoresUpTo (H:=asciiHost) worriedDialogue
                                           (length worriedDialogue)))
      ∧ (above + between + below = length worriedDialogue)%nat.
Proof.
  assert (wellFormed worriedDialogue) as Hwf
    by (apply wellFormed_check; reflexivity).
  assert (plainSpeakers worriedDialogue) as Hplain
    by (apply plainSpeakers_check; reflexivity).
  split; [done|].
  apply (sentiment_distribution_counts_turns (H:=asciiHost) _ Hwf Hplain).
Defined.

(** ** Sums and variance of finite numbers *)

Lemma jsdiv_ofNat (x : Q) (n : nat) :
  n ≠ 0%nat → (Num x / ofNat n)%js = Num (Qred (x / inject_Z (Z.of_nat n))).
Proof.
  intros Hn. unfold ofNat. apply jsdiv_Num.
  destruct (Qeq_bool (inject_Z (Z.of_nat n)) 0) eqn:Hz; [|done].
  apply Qeq_bool_eq in Hz. unfold Qeq in Hz. simpl in Hz. lia.
Qed.

Lemma fold_jsadd_Num (qs : list Q) (a : Q) :
  ∃ s, fold_left jsadd (map Num qs) (Num a) = Num s ∧ (s == a + Qsum qs)%Q.
Proof.
  revert a. induction qs as [|q qs IH]; intros a.
  - exists a. split; [done|]. unfold Qsum. simpl. ring.
  - cbn [map fold_left]. unfold jsadd at 2.
    destruct (IH (Qred (a + q))) as (s & -> & Hs).
    exists s. split; [done|]. rewrite Hs, Qred_correct.
    unfold Qsum. simpl. ring.
Qed.

Lemma fold_deviations_Num (qs : list Q) (mu a : Q) :
  ∃ v, fold_left (fun acc s => acc + (s - Num mu) * (s - Num mu))%js
                 (map Num qs) (Num a) = Num v
       ∧ (v == a + squaredDeviations mu qs)%Q.
Proof.
  revert a. induction qs as [|q qs IH]; intros a.
  - exists a. split; [done|]. unfold squaredDeviations, Qsum. simpl. ring.
  - cbn [map fold_left].
    set (a' := Qred (a + Qred (Qred (q + Qred (- mu)) * Qred (q + Qred (- mu))))).
    change (Num a + (Num q - Num mu) * (Num q - Num mu))%js with (Num a').
    destruct (IH a') as (v & -> & Hv).
    exists v. split; [done|]. rewrite Hv. subst a'. rewrite !Qred_correct.
    unfold squaredDeviations, Qsum. simpl. ring.
Qed.

Lemma Qsquare_nonneg (x : Q) : (0 <= x * x)%Q.
Proof.
  destruct (Qlt_le_dec x 0).
  - assert (x * x == (- x) * (- x))%Q as -> by ring.
    apply Qmult_le_0_compat; lra.
  - apply Qmult_le_0_compat; lra.
Qed.

Lemma squaredDeviations_nonneg (a : Q) (qs : list Q) :
  (0 <= squaredDeviations a qs)%Q.
Proof.
  unfold squaredDeviations, Qsum. induction qs as [|q qs IH]; simpl; [lra|].
  pose proof (Qsquare_nonneg (q - a)). lra.
Qed.

Lemma squaredDeviations_proper (a b : Q) (qs : list Q) :
  (a == b)%Q → (squaredDeviations a qs == squaredDeviations b qs)%Q.
Proof.
  intros Hab. unfold squaredDeviations, Qsum.
  induction qs as [|q qs IH]; simpl; [reflexivity|]. by rewrite IH, Hab.
Qed.

Lemma inject_nat_succ (n : nat) :
  (inject_Z (Z.of_nat (Datatypes.S n)) == inject_Z (Z.of_nat n) + 1)%Q.
Proof. rewrite Nat2Z.inj_succ. unfold Z.succ. by rewrite inject_Z_plus. Qed.

(** The sum of squared deviations is least around the mean. *)
Lemma squaredDeviations_expand (a : Q) (qs : list Q) :
  (squaredDeviations a qs
   == Qsum (map (fun q => q * q) qs) - 2 * a * Qsum qs
      + inject_Z (Z.of_nat (length qs)) * a * a)%Q.
Proof.
  unfold squaredDeviations, Qsum. induction qs as [|q qs IH].
  - simpl. ring.
  - cbn [map fold_right length]. rewrite IH, inject_nat_succ. ring.
Qed.

Lemma squaredDeviations_least (mu c : Q) (qs : list Q) :
  (inject_Z (Z.of_nat (length qs)) * mu == Qsum qs)%Q →
  (squaredDeviations mu qs <= squaredDeviations c qs)%Q.
Proof.
  intros Hmean. rewrite !squaredDeviations_expand, <- Hmean.
  set (n := inject_Z (Z.of_nat (length qs))).
  assert (0 <= n)%Q by (subst n; rewrite <- (Zle_Qle 0); lia).
  assert (0 <= n * ((mu - c) * (mu - c)))%Q
    by (apply Qmult_le_0_compat; [done|apply Qsquare_nonneg]).
  assert (n * ((mu - c) * (mu - c)) == n * mu * mu - 2 * c * (n * mu) + n * c * c)%Q
    as Hsquare by ring.
  assert (n * mu * mu - 2 * mu * (n * mu) == - (n * mu * mu))%Q as Hmu by ring.
  lra.
Qed.

Lemma calculateEmotionalVariance_value (qs : list Q) :
  qs ≠ [] →
  ∃ mu e,
    (inject_Z (Z.of_nat (length qs)) * mu == Qsum qs)%Q
    ∧ calculateEmotionalVariance (map Num qs) = Num e
    ∧ (e == Qmin 1 (squaredDeviations mu qs / inject_Z (Z.of_nat (length qs))))%Q.
Proof.
  intros Hne. unfold calculateEmotionalVariance, sum.
  rewrite length_map.
  assert (length qs ≠ 0)%nat as Hn by by destruct qs.
  rewrite (proj2 (Nat.eqb_neq _ _) Hn).
  destruct (fold_jsadd_Num qs 0) as (s & -> & Hs).
  rewrite jsdiv_ofNat by done.
  set (mu := Qred (s / inject_Z (Z.of_nat (length qs)))).
  destruct (fold_deviations_Num qs mu 0) as (v & -> & Hv).
  rewrite jsdiv_ofNat by done.
  destruct (Math_min_Num 1 (Qred (v / inject_Z (Z.of_nat (length qs)))))
    as (e & -> & He).
  exists mu, e. pose proof (inject_nat_pos _ Hn) as Hpos.
  split; [|split; [done|]].
  - subst mu. rewrite Qred_correct, Hs. field. lra.
  - rewrite He, Qred_correct, Hv. apply Q.min_compat; [done|].
    apply Qdiv_comp; [ring|reflexivity].
Qed.

(** X7.  [calculateEmotionalVariance] of a list of scores, numbers
    between -1 and 1 as [analyzeSentimentScore] returns them, is
    [min(1, v)] for [v] their population variance, hence a number between
    0 and 1; of no numbers at all it is 0. *)
Theorem emotional_variance_is_capped_population_variance (qs : list Q) :
  calculateEmotionalVariance [] = Num 0
  ∧ (qs ≠ [] → Forall (fun q => -1 <= q <= 1)%Q qs →
     ∃ e, calculateEmotionalVariance (map Num qs) = Num e
          ∧ (e == Qmin 1 (populationVariance qs))%Q ∧ (0 <= e <= 1)%Q).
Proof.
  split; [reflexivity|]. intros Hne _.
  destruct (calculateEmotionalVariance_value qs Hne) as (mu & e & Hmu & He & Heq).
  assert (length qs ≠ 0)%nat as Hn by by destruct qs.
  pose proof (inject_nat_pos _ Hn) as Hpos.
  exists e. split; [done|].
  assert (squaredDeviations mu qs / inject_Z (Z.of_nat (length qs))
          == populationVariance qs)%Q as Hvar.
  { unfold populationVariance. fold (Qsum qs).
    apply Qdiv_comp; [|reflexivity].
    rewrite (squaredDeviations_proper mu
               (Qsum qs / inject_Z (Z.of_nat (length qs)))).
    - unfold squaredDeviations, Qsum. clear.
      generalize (fold_right Qplus 0 qs / inject_Z (Z.of_nat (length qs)))%Q.
      intros a. induction qs as [|q qs IH]; simpl; [reflexivity|]. by rewrite IH.
    - rewrite <- Hmu. field. lra. }
  split.
  - rewrite Heq. by apply Q.min_compat.
  - rewrite Heq. pose proof (squaredDeviations_nonneg mu qs).
    split; [apply Q.min_glb; [lra|] | apply Q.le_min_l].
    apply Qle_shift_div_l; lra.
Qed.

Lemma emotional_variance_witness :
  ([1; -1]%Q ≠ [] ∧ Forall (fun q => -1 <= q <= 1)%Q [1; -1]%Q)
  ∧ ∃ e, calculateEmotionalVariance (map Num [1; -1]%Q) = Num e
         ∧ (e == Qmin 1 (populationVariance [1; -1]))%Q ∧ (0 <= e <= 1)%Q.
Proof.
  assert ([1; -1]%Q ≠ []) as Hne by done.
  assert (Forall (fun q => -1 <= q <= 1)%Q [1; -1]%Q) as Hbounds
    by (repeat constructor; done).
  split; [done|].
  apply (proj2 (emotional_variance_is_capped_population_variance [1; -1]%Q)
               Hne Hbounds).
Defined.

(** ** The health score *)

Lemma positive_share_bound (qs : list Q) :
  Forall (fun q => -1 <= q <= 1)%Q qs →
  (squaredDeviations (- (7 # 20)) qs
   <= (169 # 400) * inject_Z (Z.of_nat (length qs))
      + (560 # 400)
        * inject_Z (Z.of_nat (length (filter (fun q => Qltb (3 # 10) q = true) qs))))%Q.
Proof.
  unfold squaredDeviations, Qsum.
  induction 1 as [|q qs [Hlow Hhigh] Hqs IH].
  - rewrite filter_nil. cbn [map fold_right length].
    change (inject_Z (Z.of_nat 0)) with 0%Q. lra.
  - cbn [map fold_right length]. rewrite filter_cons, inject_nat_succ.
    destruct (decide (Qltb (3 # 10) q = true)) as [Hpos|Hpos].
    + cbn [length]. rewrite inject_nat_succ.
      assert (0 <= (1 - q) * (q + (17 # 10)))%Q as Hprod
        by (apply Qmult_le_0_compat; lra).
      assert ((q - - (7 # 20)) * (q - - (7 # 20))
              == (729 # 400) - (1 - q) * (q + (17 # 10)))%Q as -> by ring.
      lra.
    + apply not_true_is_false, Qltb_ge in Hpos.
      assert (0 <= ((3 # 10) - q) * (q + 1))%Q as Hprod
        by (apply Qmult_le_0_compat; lra).
      assert ((q - - (7 # 20)) * (q - - (7 # 20))
              == (169 # 400) - ((3 # 10) - q) * (q + 1))%Q as -> by ring.
      lra.
Qed.

Lemma count_above_finite (qs : list Q) :
  length (filter (fun s => (s >? Num (3 # 10))%js = true) (map Num qs))
  = length (filter (fun q => Qltb (3 # 10) q = true) qs).
Proof.
  induction qs as [|q qs IH]; [done|].
  cbn [map]. rewrite !filter_cons.
  change (Num q >? Num (3 # 10))%js with (Qltb (3 # 10) q).
  destruct (decide (Qltb (3 # 10) q = true)); cbn [length]; by rewrite IH.
Qed.

Lemma health_expression (above below n : nat) (e : Q) :
  n ≠ 0%nat → (above ≤ n)%nat → (below ≤ n)%nat →
  (e <= (169 # 400)
        + (7 # 5) * (inject_Z (Z.of_nat above) / inject_Z (Z.of_nat n)))%Q →
  Math_max (Num 0)
    (Math_min (Num 100)
       ((ofNat above / ofNat n * Num 40 + (Num 1 - ofNat below / ofNat n) * Num 30
         + (Num 1 - Num e) * Num 30) * Num 100)%js)
  = Num 100.
Proof.
  intros Hn Habove Hbelow He. rewrite !ofNat_div by done.
  pose proof (inject_nat_pos _ Hn) as Hpos.
  apply inject_nat_le in Habove, Hbelow.
  assert (0 <= inject_Z (Z.of_nat above))%Q by (rewrite <- (Zle_Qle 0); lia).
  assert (0 <= inject_Z (Z.of_nat below))%Q by (rewrite <- (Zle_Qle 0); lia).
  set (p := (inject_Z (Z.of_nat above) / inject_Z (Z.of_nat n))%Q) in *.
  set (r := (inject_Z (Z.of_nat below) / inject_Z (Z.of_nat n))%Q).
  assert (0 <= p <= 1)%Q as [Hp0 Hp1].
  { subst p. split; [apply Qle_shift_div_l | apply Qle_shift_div_r]; lra. }
  assert (0 <= r <= 1)%Q as [Hr0 Hr1].
  { subst r. split; [apply Qle_shift_div_l | apply Qle_shift_div_r]; lra. }
  unfold jssub, jsneg, jsmul, jsadd.
  match goal with
  | |- Math_max _ (Math_min _ (Num ?x)) = _ =>
    assert (100 <= x)%Q as Hx by (rewrite !Qred_correct; lra);
    unfold Math_min, jslt, jsgt;
    rewrite (proj2 (Qltb_ge x 100) Hx)
  end.
  reflexivity.
Qed.

Section health.
Context `{Host}.

Lemma analyzeSentimentScore_value (text : jsstring) :
  ∃ q, analyzeSentimentScore text = Num q ∧ (-1 <= q <= 1)%Q.
Proof.
  unfold analyzeSentimentScore.
  rewrite sentimentIndicators_buckets, scoreEntries_buckets.
  unfold ofNat, jssub, jsmul, jsadd, jsneg.
  match goal with
  | |- context [Math_min (Num 1) (Num ?s)] =>
    destruct (Math_min_Num 1 s) as (m & -> & Hm)
  end.
  destruct (Math_max_Num (-1) m) as (q & -> & Hq).
  exists q. split; [done|]. rewrite Hq. split.
  - apply Q.le_max_l.
  - apply Q.max_lub; [lra|]. rewrite Hm. apply Q.le_min_l.
Qed.

Lemma scores_finite dialogue (l : list nat) :
  ∃ qs, omap (sentimentAt dialogue) l = map Num qs
        ∧ Forall (fun q => -1 <= q <= 1)%Q qs.
Proof.
  induction l as [|i l (qs & IH & Hqs)]; [by exists []|].
  cbn [omap list_omap]. unfold sentimentAt at 1.
  destruct (dialogue !! i) as [m|]; cbn [mbind option_bind]; [|by exists qs].
  destruct (content m) as [text|]; cbn [mbind option_bind]; [|by exists qs].
  destruct (analyzeSentimentScore_value text) as (q & -> & Hq).
  exists (q :: qs). split; [|by constructor].
  cbn [map]. f_equal. exact IH.
Qed.

Lemma trend_sentiments dialogue (l : list nat) :
  map trend_sentiment (omap (trendPointAt dialogue) l)
  = omap (sentimentAt dialogue) l.
Proof.
  induction l as [|i l IH]; [done|].
  cbn [omap list_omap]. unfold trendPointAt at 1.
  destruct (dialogue !! i) as [m|] eqn:Hm; cbn [mbind option_bind].
  - destruct (sentimentAt dialogue i) as [s|]; cbn [mbind option_bind map];
      [f_equal|]; exact IH.
  - assert (sentimentAt dialogue i = None) as ->
      by (unfold sentimentAt; by rewrite Hm).
    done.
Qed.
End health.

(** X8.  For every non-empty conversation whose turns all have content and
    in which no speaker is named like a property inherited from
    [Object.prototype] the health score of [analyzeSentiment] is 100 and its
    level is the label of a healthy conversation: the weighted sum is at
    least 15.3 before it is multiplied by 100, so the cap at 100 always
    applies. *)
Theorem health_score_saturates `{Host} (dialogue : list message) :
  wellFormed dialogue → plainSpeakers dialogue → dialogue ≠ [] →
  ∃ result, analyzeSentiment dialogue = Ok result
            ∧ healthScore result = Num 100
            ∧ healthLevel result = utf16 "良好".
Proof.
  intros Hwf Hplain Hne.
  destruct (analyzeSentiment_loop_counts dialogue Hwf Hplain)
    as (vars & Hloop & [Htrend _] & Hcounts).
  unfold analyzeSentiment. rewrite Hloop. cbn [mbind outcome_bind].
  destruct vars as [[[trend counts] turning] participants].
  cbn [fst snd] in Htrend, Hcounts.
  set (n := length dialogue) in *.
  assert (n ≠ 0)%nat as Hn by (subst n; by destruct dialogue).
  destruct (scores_finite dialogue (seq 0 n)) as (qs & Hscores & Hbounds).
  assert (length qs = n) as Hlen.
  { rewrite <- (length_map Num), <- Hscores.
    apply omap_seq_total. intros i Hi.
    destruct (wellFormed_lookup dialogue i Hwf Hi) as (m & text & Hm & Htext).
    rewrite (sentimentAt_content _ _ _ _ Hm Htext). by eexists. }
  assert (qs ≠ []) as Hqs by (intros ->; cbn in Hlen; lia).
  destruct (calculateEmotionalVariance_value qs Hqs) as (mu & e & Hmu & He & Heq).
  destruct (fold_bump_counts (scoresUpTo dialogue n) (Distribution 0 0 0))
    as (Hp & Hb & Hsum).
  cbn zeta in Hp, Hb, Hsum. fold (countsOf (scoresUpTo dialogue n)) in Hp, Hb, Hsum.
  rewrite <- Hcounts in Hp, Hb, Hsum. cbn [positive neutral negative Nat.add] in Hp, Hb, Hsum.
  assert (length (scoresUpTo dialogue n) = n) as Hslen
    by (unfold scoresUpTo; by rewrite Hscores, length_map).
  rewrite Hslen in Hsum.
  unfold scoresUpTo in Hp. rewrite Hscores, count_above_finite in Hp.
  assert (Math_max (Num 0)
            (Math_min (Num 100)
               ((ofNat (positive counts) / ofNat n * Num 40
                 + (Num 1 - ofNat (negative counts) / ofNat n) * Num 30
                 + (Num 1 - calculateEmotionalVariance (map trend_sentiment trend))
                   * Num 30) * Num 100)%js)
          = Num 100) as Hscore.
  { rewrite Htrend, trend_sentiments, Hscores, He.
    apply health_expression; [done|lia|lia|].
    pose proof (inject_nat_pos _ Hn) as Hpos.
    pose proof (squaredDeviations_least mu (- (7 # 20)) qs Hmu) as Hleast.
    pose proof (positive_share_bound qs Hbounds) as Hshare.
    rewrite Hlen in Hshare. rewrite <- Hp in Hshare.
    assert (e <= squaredDeviations mu qs / inject_Z (Z.of_nat n))%Q as Hcap
      by (rewrite Heq, Hlen; apply Q.le_min_r).
    apply (Qle_trans _ _ _ Hcap). apply Qle_shift_div_r; [done|].
    assert (((169 # 400)
             + (7 # 5) * (inject_Z (Z.of_nat (positive counts)) / inject_Z (Z.of_nat n)))
            * inject_Z (Z.of_nat n)
            == (169 # 400) * inject_Z (Z.of_nat n)
               + (560 # 400) * inject_Z (Z.of_nat (positive counts)))%Q as ->
      by (field; lra).
    lra. }
  eexists. split; [done|]. cbn [healthScore healthLevel].
  rewrite Hscore. split; reflexivity.
Qed.

Lemma health_score_saturates_witness :
  (wellFormed worriedDialogue ∧ plainSpeakers worriedDialogue
   ∧ worriedDialogue ≠ [])
  ∧ ∃ result, @analyzeSentiment asciiHost worriedDialogue = Ok result
              ∧ healthScore result = Num 100
              ∧ healthLevel result = utf16 "良好".
Proof.
  assert (wellFormed worriedDialogue) as Hwf
    by (apply wellFormed_check; reflexivity).
  assert (plainSpeakers worriedDialogue) as Hplain
    by (apply plainSpeakers_check; reflexivity).
  assert (worriedDialogue ≠ []) as Hne by done.
  split; [done|].
  apply (health_score_saturates (H:=asciiHost) _ Hwf Hplain Hne).
Defined.


(** ** Ranking of the key points *)

Section sorting.
Context {A : Type} (R : relation A) (swap : A → A → bool).

Lemma insertSorted_perm (x : A) (l : list A) : insertSorted swap x l ≡ₚ x :: l.
Proof.
  induction l as [|y l IH]; [done|]. cbn [insertSorted].
  destruct (swap x y); [|done]. rewrite IH. apply Permutation_swap.
Qed.

Lemma sortWith_perm (l : list A) : sortWith swap l ≡ₚ l.
Proof.
  unfold sortWith. induction l as [|x l IH]; [done|].
  cbn [foldr]. by rewrite insertSorted_perm, IH.
Qed.

Lemma insertSorted_sorted `{!Transitive R} (x : A) (l : list A) :
  Forall (sortsBy R swap x) l → StronglySorted R l →
  StronglySorted R (insertSorted swap x l).
Proof.
  intros Hx Hl. induction Hl as [|y l Hl IH Hy]; cbn [insertSorted].
  - by repeat constructor.
  - apply Forall_cons in Hx as [[Hswap Hkeep] Hx].
    destruct (swap x y) eqn:Hxy.
    + constructor; [by apply IH|].
      rewrite insertSorted_perm. constructor; [by apply Hswap|done].
    + constructor; [by constructor|].
      constructor; [by apply Hkeep|].
      eapply Forall_impl; [exact Hy|]. intros z Hz.
      by transitivity y; [apply Hkeep|].
Qed.

Lemma sortWith_sorted `{!Transitive R} (l : list A) :
  StronglySorted (sortsBy R swap) l → StronglySorted R (sortWith swap l).
Proof.
  unfold sortWith. induction 1 as [|x l Hl IH Hx]; cbn [foldr]; [constructor|].
  apply insertSorted_sorted; [|done].
  fold (sortWith swap l). by rewrite sortWith_perm.
Qed.
End sorting.

Lemma StronglySorted_take {A} (R : relation A) (n : nat) (l : list A) :
  StronglySorted R l → StronglySorted R (take n l).
Proof.
  intros Hl. revert n. induction Hl as [|x l Hl IH Hx]; intros [|n]; cbn [take];
    try constructor; [by apply IH|].
  eapply Forall_forall. intros y Hy. rewrite Forall_forall in Hx.
  apply Hx. eapply (subseteq_take n l), Hy.
Qed.

#[global] Instance rankedBefore_transitive : Transitive rankedBefore.
Proof.
  intros a b c [Hab|[Hab Hid]] [Hbc|[Hbc Hid']]; unfold rankedBefore.
  - left. lra.
  - left. lra.
  - left. lra.
  - right. split; [lra|lia].
Qed.

Lemma byImportance_sortsBy (a b : keyPoint) :
  finiteImportance a → finiteImportance b → (kp_id a < kp_id b)%nat →
  sortsBy rankedBefore byImportance a b.
Proof.
  intros [x Hx] [y Hy] Hid. unfold sortsBy, byImportance, rankedBefore.
  rewrite Hx, Hy. unfold jssub, jsneg, jsadd. cbn [numValue].
  split; intros Hcmp.
  - apply jsgt_Num in Hcmp. rewrite !Qred_correct in Hcmp. left. lra.
  - unfold jsgt in Hcmp. apply Qltb_ge in Hcmp. rewrite !Qred_correct in Hcmp.
    destruct (Qlt_le_dec y x); [left; lra|right; split; [lra|done]].
Qed.

(** A loop whose successful steps keep an invariant indexed by the
    position. *)
Lemma forEach_ok_inv_indexed {S A} (P : nat → S → Prop)
    (f : S → A → nat → outcome S) (l : list A) (i : nat) (s s' : S) :
  P i s →
  (∀ s x k s', l !! k = Some x → P (i + k)%nat s →
               f s x (i + k)%nat = Ok s' → P (Datatypes.S (i + k)) s') →
  forEach f l i s = Ok s' → P (i + length l)%nat s'.
Proof.
  revert i s. induction l as [|x l IH]; intros i s Hs Hstep; cbn [forEach length].
  - intros [= <-]. by rewrite Nat.add_0_r.
  - destruct (f s x i) as [s1|e] eqn:Hf; cbn [mbind outcome_bind]; [|done].
    intros Hrun.
    replace (i + Datatypes.S (length l))%nat
      with (Datatypes.S i + length l)%nat by lia.
    apply (IH (Datatypes.S i) s1); [| |done].
    + specialize (Hstep s x 0%nat s1). rewrite Nat.add_0_r in Hstep.
      by apply Hstep.
    + intros s0 y k s0' Hy Hs0 Hf0.
      replace (Datatypes.S i + k)%nat with (i + Datatypes.S k)%nat in * by lia.
      by eapply Hstep.
Qed.

Section ranking.
Context `{Host}.

Lemma keyPointStep_collected dialogue vars m j vars' :
  collected j vars → keyPointStep dialogue vars m j = Ok vars' →
  collected (Datatypes.S j) vars'.
Proof.
  destruct vars as [[[points controversial] consensus] references].
  intros [Hall Hsorted]. cbn [fst snd] in Hall, Hsorted.
  assert (collected (Datatypes.S j) (points, controversial, consensus, references))
    as Hsame.
  { split; [|done]. cbn [fst snd]. eapply Forall_impl; [exact Hall|].
    intros p [Hp Hid]. split; [done|lia]. }
  unfold keyPointStep.
  destruct (content m) as [text|]; cbn [mbind outcome_bind receiver]; [|done].
  destruct (_ || _); [|by intros [= <-]].
  destruct (calculateConsensusLevel dialogue text) as [level|];
    cbn [mbind outcome_bind]; [|done].
  intros [= <-]. split; cbn [fst snd].
  - apply Forall_app. split.
    + eapply Forall_impl; [exact Hall|]. intros p [Hp Hid]. split; [done|lia].
    + constructor; [|constructor]. split; [|cbn; lia].
      destruct (calculatePointStrength_value text) as (q & Hq & _).
      unfold finiteImportance. cbn [kp_importance]. rewrite Hq. by eexists.
  - apply StronglySorted_app. split; [|split; [done|by repeat constructor]].
    intros a b Ha Hb. apply list_elem_of_singleton in Hb as ->.
    rewrite Forall_forall in Hall. destruct (Hall a Ha) as [_ Hid]. cbn. done.
Qed.
End ranking.



(** ** Theme transitions *)

Lemma leadTopic_content dialogue i m text :
  dialogue !! i = Some m → content m = Some text →
  ∃ topic, leadTopic dialogue i = Some topic
           ∧ firstTopic (detectTopics text) = Topic topic.
Proof.
  intros Hm Hc. unfold leadTopic. rewrite Hm. cbn [mbind option_bind].
  rewrite Hc. cbn [mbind option_bind].
  pose proof (detectTopics_nonempty text) as Hne.
  destruct (detectTopics text) as [|topic topics]; [done|]. by exists topic.
Qed.

Lemma transitionAt_first dialogue : transitionAt dialogue 0 = None.
Proof.
  unfold transitionAt.
  destruct (dialogue !! 0%nat) as [m|]; cbn [mbind option_bind]; [|done].
  destruct (leadTopic dialogue 0) as [current|]; cbn [mbind option_bind]; [|done].
  by destruct (leadTopic dialogue (0 - 1)).
Qed.

Lemma themeTransition_step dialogue j m vars :
  wellFormed dialogue → dialogue !! j = Some m →
  transitionsInvariant dialogue j vars →
  ∃ vars',
    (let '(transitions, lastTopic) := vars in
     text ← receiver (content m);
     let topics := detectTopics text in
     let transitions :=
       if (0 <? length topics)%nat
          && negb (bool_decide (firstTopic topics = lastTopic))
          && negb (bool_decide (lastTopic = NullTopic))
       then transitions ++ [ThemeTransition lastTopic (firstTopic topics) 1
                                            (timestamp m)]
       else transitions in
     Ok (transitions, firstTopic topics)) = Ok vars'
    ∧ transitionsInvariant dialogue (Datatypes.S j) vars'.
Proof.
  intros Hwf Hm [Htransitions Hlast]. destruct vars as [transitions lastTopic].
  cbn [fst snd] in Htransitions, Hlast.
  destruct (Hwf m) as [text Htext]; [by eapply list_elem_of_lookup_2|].
  destruct (leadTopic_content _ _ _ _ Hm Htext) as (current & Hcurrent & Hfirst).
  rewrite Htext. cbn [mbind outcome_bind receiver]. rewrite Hfirst.
  assert ((0 <? length (detectTopics text))%nat = true) as ->.
  { pose proof (detectTopics_nonempty text).
    destruct (detectTopics text); [done|reflexivity]. }
  eexists. split; [done|]. unfold transitionsInvariant. cbn [fst snd].
  rewrite omap_seq_snoc, Hcurrent. cbn [from_option]. split; [|done].
  rewrite Htransitions. destruct j as [|j].
  - rewrite transitionAt_first, Hlast.
    rewrite (bool_decide_eq_true_2 (NullTopic = NullTopic)) by done.
    by rewrite andb_false_r.
  - assert (j < length dialogue)%nat as Hj
      by (apply lookup_lt_Some in Hm; lia).
    destruct (wellFormed_lookup dialogue j Hwf Hj) as (mp & tp & Hmp & Htp).
    destruct (leadTopic_content _ _ _ _ Hmp Htp) as (previous & Hprevious & _).
    rewrite Hprevious in Hlast. cbn [from_option] in Hlast. rewrite Hlast.
    assert (transitionAt dialogue (Datatypes.S j)
            = if negb (bool_decide (current = previous))
              then Some (ThemeTransition (Topic previous) (Topic current) 1
                                         (timestamp m))
              else None) as ->.
    { unfold transitionAt. rewrite Hm. cbn [mbind option_bind].
      rewrite Hcurrent. cbn [mbind option_bind].
      replace (Datatypes.S j - 1)%nat with j by lia.
      by rewrite Hprevious. }
    rewrite (bool_decide_eq_false_2 (Topic previous = NullTopic)) by done.
    rewrite andb_true_r. cbn [andb].
    destruct (decide (current = previous)) as [->|Hne].
    + rewrite !bool_decide_eq_true_2 by done. cbn [negb].
      by rewrite app_nil_r.
    + rewrite !bool_decide_eq_false_2 by congruence. done.
Qed.



(** ** Theme distribution and dominant theme *)

Lemma countOf_cons name value rest topic :
  countOf ((name, value) :: rest) topic
  = if decide (name = topic) then value else countOf rest topic.
Proof.
  unfold countOf. cbn [list_find fst].
  destruct (decide (name = topic)); [done|].
  by destruct (list_find _ rest) as [[i entry]|].
Qed.

Lemma countOf_increment topic counts name :
  countOf (increment topic counts) name
  = if decide (name = topic) then Datatypes.S (countOf counts name)
    else countOf counts name.
Proof.
  induction counts as [|[key value] rest IH]; cbn [increment].
  - rewrite countOf_cons. change (countOf [] name) with 0%nat.
    destruct (decide (topic = name)), (decide (name = topic)); congruence.
  - destruct (decide (key = topic)) as [->|Hne]; rewrite !countOf_cons.
    + destruct (decide (topic = name)), (decide (name = topic)); congruence.
    + rewrite IH.
      destruct (decide (key = name)), (decide (name = topic)); congruence.
Qed.

Lemma increment_names topic counts :
  map fst (increment topic counts)
  = if decide (topic ∈ map fst counts) then map fst counts
    else map fst counts ++ [topic].
Proof.
  induction counts as [|[key value] rest IH]; cbn [increment map fst].
  - destruct (decide (topic ∈ [])) as [Hin|_]; [|done].
    by apply elem_of_nil in Hin.
  - destruct (decide (key = topic)) as [->|Hne]; cbn [map fst].
    + rewrite decide_True by (apply elem_of_cons; by left). done.
    + rewrite IH. destruct (decide (topic ∈ map fst rest)) as [Hin|Hout].
      * rewrite decide_True by (apply elem_of_cons; by right). done.
      * rewrite decide_False; [done|].
        intros [?|?]%elem_of_cons; congruence.
Qed.

Lemma increment_NoDup topic counts :
  NoDup (map fst counts) → NoDup (map fst (increment topic counts)).
Proof.
  intros Hnodup. rewrite increment_names.
  destruct (decide (topic ∈ map fst counts)) as [Hin|Hout]; [done|].
  apply NoDup_app. split_and!; [done| |apply NoDup_singleton].
  intros name Hname ->%list_elem_of_singleton. done.
Qed.

Lemma increment_positive topic counts :
  Forall (fun entry => (1 <= entry.2)%nat) counts →
  Forall (fun entry => (1 <= entry.2)%nat) (increment topic counts).
Proof.
  induction 1 as [|[key value] rest Hvalue Hrest IH]; cbn [increment].
  - repeat constructor.
  - destruct (decide (key = topic)); constructor; cbn in *; (lia || done).
Qed.

Lemma counted_names counts name :
  Forall (fun entry => (1 <= entry.2)%nat) counts →
  name ∈ map fst counts ↔ (1 <= countOf counts name)%nat.
Proof.
  induction 1 as [|[key value] rest Hvalue Hrest IH]; cbn [map fst].
  - change (countOf [] name) with 0%nat. rewrite elem_of_nil. lia.
  - rewrite countOf_cons, elem_of_cons. cbn in Hvalue.
    destruct (decide (key = name)) as [->|Hne]; [intuition|].
    rewrite IH. intuition congruence.
Qed.

Lemma counted_entries counts entry :
  NoDup (map fst counts) → entry ∈ counts → countOf counts entry.1 = entry.2.
Proof.
  induction counts as [|[key value] rest IH]; intros Hnodup Hin.
  - by apply elem_of_nil in Hin.
  - cbn [map fst] in Hnodup. apply NoDup_cons in Hnodup as [Hkey Hnodup].
    rewrite countOf_cons. apply elem_of_cons in Hin as [->|Hin].
    + cbn. by rewrite decide_True.
    + rewrite decide_False; [by apply IH|].
      intros ->. apply Hkey, list_elem_of_fmap. by exists entry.
Qed.

Lemma detectTopics_NoDup text : NoDup (detectTopics text).
Proof.
  unfold detectTopics.
  destruct (0 <? length _)%nat; [|apply NoDup_singleton].
  apply (sublist_NoDup _ (map fst topicPatterns)).
  - apply (bool_decide_unpack (NoDup (map fst topicPatterns))). by vm_compute.
  - apply (fmap_sublist fst), sublist_filter.
Qed.

(** The keys of [themeDistribution] are own properties only. *)
Lemma detected_topics_are_own_keys text topic :
  topic ∈ detectTopics text → topic ∉ inheritedKeys.
Proof.
  intros Htopic.
  assert (topic ∈ fallbackTopic :: map fst topicPatterns) as Hlabel.
  { unfold detectTopics in Htopic.
    destruct (0 <? length _)%nat.
    - apply elem_of_cons. right.
      eapply elem_of_sublist; [exact Htopic|].
      apply (fmap_sublist fst), sublist_filter.
    - apply list_elem_of_singleton in Htopic as ->. apply elem_of_cons. by left. }
  clear Htopic. revert topic Hlabel. apply Forall_forall.
  apply (bool_decide_unpack
           (Forall (fun topic => topic ∉ inheritedKeys)
                   (fallbackTopic :: map fst topicPatterns))).
  by vm_compute.
Qed.

Lemma topics_fold_counts text index who when topics acc :
  (fold_left
     (fun '(counts, segments) topic =>
        (increment topic counts,
         if (50 <? length text)%nat
         then segments ++
              [KeySegment index who when topic
                          (substring0 100 text ++ utf16 "...") text]
         else segments))
     topics acc).1
  = fold_left (fun counts topic => increment topic counts) topics acc.1.
Proof.
  revert acc. induction topics as [|topic topics IH]; intros [counts segments].
  - done.
  - cbn [fold_left]. by rewrite IH.
Qed.

Lemma increments_tally topics counts :
  NoDup topics →
  NoDup (map fst counts) →
  Forall (fun entry => (1 <= entry.2)%nat) counts →
  let counts' := fold_left (fun counts topic => increment topic counts)
                           topics counts in
  NoDup (map fst counts')
  ∧ Forall (fun entry => (1 <= entry.2)%nat) counts'
  ∧ ∀ name, countOf counts' name
            = (countOf counts name
               + if bool_decide (name ∈ topics) then 1 else 0)%nat.
Proof.
  intros Htopics. revert counts.
  induction Htopics as [|topic topics Hfresh Htopics IH];
    intros counts Hnodup Hpositive; cbn [fold_left].
  - split_and!; [done..|]. intros name.
    rewrite bool_decide_eq_false_2 by apply not_elem_of_nil. lia.
  - destruct (IH (increment topic counts)) as (Hn & Hp & Hc);
      [by apply increment_NoDup | by apply increment_positive |].
    split_and!; [done..|]. intros name.
    rewrite Hc, countOf_increment.
    destruct (decide (name = topic)) as [->|Hne].
    + rewrite (bool_decide_eq_false_2 (topic ∈ topics)) by done.
      rewrite bool_decide_eq_true_2 by (apply elem_of_cons; by left). lia.
    + destruct (decide (name ∈ topics)) as [Hin|Hout].
      * rewrite !bool_decide_eq_true_2;
          [done | apply elem_of_cons; by right | done].
      * rewrite !bool_decide_eq_false_2;
          [done | by intros [?|?]%elem_of_cons | done].
Qed.

Lemma detections_snoc dialogue j m topic :
  dialogue !! j = Some m →
  detections (take (Datatypes.S j) dialogue) topic
  = (detections (take j dialogue) topic
     + if detects topic m then 1 else 0)%nat.
Proof.
  intros Hm. unfold detections.
  rewrite (take_S_r _ _ _ Hm), filter_app, length_app. f_equal.
  destruct (detects topic m) eqn:Hd.
  - by rewrite filter_cons_True.
  - rewrite filter_cons_False; [done|]. by rewrite Hd.
Qed.

Lemma topicStep_tallies dialogue vars m j :
  wellFormed dialogue → dialogue !! j = Some m →
  tallies dialogue j vars →
  ∃ vars', topicStep dialogue vars m j = Ok vars'
           ∧ tallies dialogue (Datatypes.S j) vars'.
Proof.
  intros Hwf Hm (Hnodup & Hpositive & Hcounts).
  destruct vars as [[counts segments] evolution]. cbn [fst] in *.
  destruct (Hwf m) as [text Htext]; [by eapply list_elem_of_lookup_2|].
  unfold topicStep. rewrite Htext. cbn [mbind outcome_bind receiver].
  pose proof (topics_fold_counts text j (speaker m) (timestamp m)
                (detectTopics text) (counts, segments)) as Hfold.
  destruct (fold_left _ (detectTopics text) (counts, segments))
    as [counts' segments'].
  cbn [fst] in Hfold. subst counts'.
  eexists. split; [done|]. unfold tallies. cbn [fst].
  destruct (increments_tally (detectTopics text) counts
              (detectTopics_NoDup text) Hnodup Hpositive) as (Hn & Hp & Hc).
  split_and!; [done..|]. intros topic.
  rewrite Hc, Hcounts, (detections_snoc _ _ _ _ Hm).
  unfold detects. by rewrite Htext.
Qed.

Lemma fold_keeps_greatest {A} (weight : A → nat) (l : list A) (a : A) :
  let r := fold_left (fun a b => if (weight b <? weight a)%nat then a else b)
                     l a in
  (r = a ∨ r ∈ l) ∧ (weight a <= weight r)%nat
  ∧ ∀ x, x ∈ l → (weight x <= weight r)%nat.
Proof.
  revert a. induction l as [|b l IH]; intros a; cbn [fold_left].
  - split_and!; [by left|done|]. by intros x Hx%elem_of_nil.
  - destruct (IH (if (weight b <? weight a)%nat then a else b))
      as (Hr & Hle & Hall).
    destruct (Nat.ltb_spec (weight b) (weight a)).
    + split_and!; [|done|].
      * destruct Hr as [->|Hr]; [by left|right; by apply elem_of_cons; right].
      * intros x [->|Hx]%elem_of_cons; [lia|by apply Hall].
    + split_and!; [|lia|].
      * right. apply elem_of_cons. destruct Hr as [->|Hr]; [by left|by right].
      * intros x [->|Hx]%elem_of_cons; [done|by apply Hall].
Qed.

(** X11.  On a non-empty conversation whose turns all have content,
    [analyzeTopics] returns a theme distribution with one slice per topic
    detected in some turn, no topic twice, whose value is the number of turns
    in which the topic is detected; [themeVariety] is the number of slices,
    and [dominantTheme] is one of the slices' topics, detected in at least as
    many turns as any topic. *)
Theorem theme_distribution_counts_turns (dialogue : list message) :
  wellFormed dialogue → dialogue ≠ [] →
  ∃ result,
    analyzeTopics dialogue = Ok result
    ∧ NoDup (map pie_name (themeDistribution result))
    ∧ (∀ topic, topic ∈ map pie_name (themeDistribution result)
                ↔ (1 <= detections dialogue topic)%nat)
    ∧ Forall (fun slice => pie_value slice = detections dialogue (pie_name slice))
             (themeDistribution result)
    ∧ themeVariety (topics_summary result) = length (themeDistribution result)
    ∧ dominantTheme (topics_summary result)
      ∈ map pie_name (themeDistribution result)
    ∧ ∀ topic, (detections dialogue topic
                <= detections dialogue (dominantTheme (topics_summary result)))%nat.
Proof.
  intros Hwf Hne. unfold analyzeTopics.
  destruct (forEach_run (tallies dialogue) (topicStep dialogue) dialogue 0%nat
              ([], [], []))
    as (vars & Hloop & Hnodup & Hpositive & Hcounts).
  - split_and!; [constructor..|]. intros topic. by rewrite take_0.
  - intros vars m k Hm Hvars. cbn [Nat.add] in *. by apply topicStep_tallies.
  - rewrite Hloop. cbn [mbind outcome_bind]. cbn [Nat.add] in Hcounts.
    rewrite firstn_all in Hcounts.
    destruct vars as [[counts segments] evolution]. cbn [fst] in *.
    pose proof (analyzeThemeTransitions_total dialogue Hwf) as Htransitions.
    destruct (analyzeThemeTransitions dialogue) as [transitions|]; [|done].
    cbn [mbind outcome_bind].
    assert (∀ topic, topic ∈ map fst counts
                     ↔ (1 <= detections dialogue topic)%nat) as Hnames.
    { intros topic. by rewrite counted_names, Hcounts. }
    assert (∃ key rest, map fst counts = key :: rest) as (key & rest & Hshape).
    { destruct (map fst counts) as [|key rest] eqn:Hshape; [exfalso|eauto].
      destruct dialogue as [|m dialogue]; [done|].
      destruct (Hwf m) as [text Htext]; [by left|].
      pose proof (detectTopics_nonempty text) as Hsome.
      destruct (detectTopics text) as [|topic topics] eqn:Htopics; [done|].
      apply (elem_of_nil topic), Hnames. unfold detections.
      rewrite filter_cons_True; [cbn; lia|].
      unfold detects. rewrite Htext, Htopics.
      apply bool_decide_eq_true_2. by left. }
    rewrite Hshape.
    cbn [reduce1 mbind outcome_bind].
    eexists. split; [done|]. cbn [themeDistribution topics_summary
                                  themeVariety dominantTheme].
    assert (map pie_name
              (map (fun entry =>
                      PieSlice entry.1 entry.2
                        (toFixed 1 (ofNat entry.2
                                    / ofNat (fold_left Nat.add (map snd counts) 0%nat)
                                    * Num 100)%js)) counts)
            = map fst counts) as Hpie.
    { rewrite map_map. by apply map_ext. }
    rewrite Hpie, !length_map.
    pose proof (fold_keeps_greatest (countOf counts) rest key)
      as (Hin & Hkey & Hgreatest).
    set (dominant := fold_left _ rest key) in *. clearbody dominant.
    assert (dominant ∈ map fst counts) as Hdominant.
    { rewrite Hshape. apply elem_of_cons.
      destruct Hin as [->|Hin]; [by left|by right]. }
    split_and!; [done|done| |done|done|].
    + apply Forall_forall. intros slice Hslice.
      apply list_elem_of_fmap in Hslice as (entry & -> & Hentry). cbn.
      rewrite <- Hcounts. symmetry. by apply counted_entries.
    + intros topic. rewrite <- !Hcounts.
      destruct (decide (topic ∈ map fst counts)) as [Htopic|Htopic].
      * rewrite Hshape in Htopic.
        apply elem_of_cons in Htopic as [->|Htopic]; [done|by apply Hgreatest].
      * rewrite counted_names in Htopic by done. lia.
Qed.

Lemma theme_distribution_witness :
  (wellFormed disputeDialogue ∧ disputeDialogue ≠ [])
  ∧ ∃ result,
      analyzeTopics disputeDialogue = Ok result
      ∧ NoDup (map pie_name (themeDistribution result))
      ∧ (∀ topic, topic ∈ map pie_name (themeDistribution result)
                  ↔ (1 <= detections disputeDialogue topic)%nat)
      ∧ Forall (fun slice => pie_value slice
                              = detections disputeDialogue (pie_name slice))
               (themeDistribution result)
      ∧ themeVariety (topics_summary result) = length (themeDistribution result)
      ∧ dominantTheme (topics_summary result)
        ∈ map pie_name (themeDistribution result)
      ∧ ∀ topic, (detections disputeDialogue topic
                  <= detections disputeDialogue
                       (dominantTheme (topics_summary result)))%nat.
Proof.
  assert (wellFormed disputeDialogue) as Hwf
    by (apply wellFormed_check; reflexivity).
  assert (disputeDialogue ≠ []) as Hne by done.
  split; [done|].
  apply (theme_distribution_counts_turns _ Hwf Hne).
Defined.

(** ** The dominant position *)

Lemma opinion_fold points counts :
  fold_left
    (fun counts point =>
       let opinion := analyzeOpinionType (kp_content point) in
       if (0 <? opinion)%Z
       then Distribution (Datatypes.S (positive counts)) (neutral counts) (negative counts)
       else if (opinion <? 0)%Z
       then Distribution (positive counts) (neutral counts) (Datatypes.S (negative counts))
       else Distribution (positive counts) (Datatypes.S (neutral counts)) (negative counts))
    points counts
  = Distribution (positive counts + positive (opinionCounts points))
                 (neutral counts + neutral (opinionCounts points))
                 (negative counts + negative (opinionCounts points)).
Proof.
  revert counts. induction points as [|p points IH]; intros [a b c].
  - cbn. f_equal; lia.
  - cbn [fold_left]. rewrite IH. unfold opinionCounts.
    cbn [positive neutral negative]. rewrite !filter_cons. cbn zeta.
    destruct (Z.ltb_spec 0 (analyzeOpinionType (kp_content p)));
      [|destruct (Z.ltb_spec (analyzeOpinionType (kp_content p)) 0)];
      cbn [positive neutral negative];
      repeat case_decide; try lia; cbn [length]; f_equal; lia.
Qed.

Lemma opinionCounts_total points :
  (positive (opinionCounts points) + neutral (opinionCounts points)
   + negative (opinionCounts points) = length points)%nat.
Proof.
  unfold opinionCounts. cbn [positive neutral negative].
  induction points as [|p points IH]; [done|].
  rewrite !filter_cons. repeat case_decide; cbn [length]; lia.
Qed.

Ltac decide_keys :=
  repeat match goal with
  | |- context [decide (utf16 ?a = utf16 ?b)] =>
      let E := fresh "E" in
      destruct (decide (utf16 a = utf16 b)) as [E|E];
      [ try (exfalso; vm_compute in E; discriminate E)
      | try (exfalso; apply E; vm_compute; reflexivity) ]
  end.

(** X12.  [findDominantPosition] counts the key points of positive, zero
    and negative opinion type, and resolves ties towards the later key of
    [positive, neutral, negative]: it returns 'negative' when the negative
    count is at least both others (so also when there is no key point),
    otherwise 'neutral' when the neutral count is at least the positive one,
    and 'positive' only when the positive count exceeds both others. *)
Theorem dominant_position_breaks_ties_downwards (points : list keyPoint) :
  let counts := opinionCounts points in
  (positive counts + neutral counts + negative counts = length points)%nat
  ∧ findDominantPosition points
    = if decide (positive counts <= negative counts
                 ∧ neutral counts <= negative counts)%nat
      then utf16 "negative"
      else if decide (positive counts <= neutral counts)%nat
           then utf16 "neutral" else utf16 "positive".
Proof.
  cbn zeta. split; [apply opinionCounts_total|].
  unfold findDominantPosition. rewrite opinion_fold.
  cbn [positive neutral negative Nat.add fold_left].
  destruct (opinionCounts points) as [a b c]. cbn [positive neutral negative].
  decide_keys.
  destruct (Nat.ltb_spec b a); decide_keys;
    destruct (Nat.ltb_spec c a); destruct (Nat.ltb_spec c b);
    repeat case_decide; try lia; done.
Qed.

(** ** Intents *)

Lemma includesSome_defined text words :
  includesSome (Some text) words = Ok (existsb (includes text) words).
Proof.
  unfold includesSome. induction words as [|word words IH]; [done|].
  cbn [someM]. rewrite IH. cbn [existsb receiver mbind outcome_bind].
  by destruct (includes text word).
Qed.

Lemma filterM_includesSome texts words :
  filterM (fun content => includesSome content words) (map Some texts)
  = Ok (map Some (filter (fun text => existsb (includes text) words = true) texts)).
Proof.
  induction texts as [|text texts IH]; [done|].
  cbn [map filterM]. rewrite includesSome_defined, IH.
  cbn [mbind outcome_bind]. rewrite filter_cons.
  destruct (existsb (includes text) words); by destruct (decide _).
Qed.

Lemma intentMatches_le texts words : (intentMatches texts words <= length texts)%nat.
Proof. apply length_filter. Qed.

(** [Math.min(1, m / n)] is [m / n] when [m] is at most [n]. *)
Lemma share_is_capped (m n : nat) :
  n ≠ 0%nat → (m <= n)%nat →
  Math_min (Num 1) (ofNat m / ofNat n)%js = (ofNat m / ofNat n)%js.
Proof.
  intros Hn Hle. rewrite ofNat_div by done.
  unfold Math_min, jslt, jsgt.
  destruct (Qltb _ 1) eqn:Hlt; [done|].
  apply Qltb_ge in Hlt. rewrite Qred_correct in Hlt.
  change 1%Q with (Qred 1). f_equal. apply Qred_complete.
  pose proof (inject_nat_pos n Hn) as Hpos.
  pose proof (inject_nat_le m n Hle) as Hmn.
  apply Qle_antisym; [done|].
  apply Qle_shift_div_r; [done|]. lra.
Qed.

Lemma share_value (m n : nat) :
  n ≠ 0%nat → (m <= n)%nat →
  ∃ q, (ofNat m / ofNat n)%js = Num q ∧ (0 <= q <= 1)%Q.
Proof.
  intros Hn Hle. rewrite ofNat_div by done. eexists. split; [done|].
  rewrite Qred_correct.
  pose proof (inject_nat_pos n Hn) as Hpos.
  pose proof (inject_nat_le m n Hle) as Hmn.
  pose proof (inject_nat_le 0 m (Nat.le_0_l m)) as Hm.
  change (inject_Z (Z.of_nat 0)) with 0%Q in Hm.
  split.
  - apply Qle_shift_div_l; [done|]. lra.
  - apply Qle_shift_div_r; [done|]. lra.
Qed.

Lemma detectIntents_loop texts :
  forEach
    (fun intents '(intent, keywords) (_ : nat) =>
       matched ← filterM (fun content => includesSome content keywords)
                         (map Some texts);
       let matches := length matched in
       Ok (if (0 <? matches)%nat
           then intents ++
                [Intent intent matches
                   (Math_min (Num 1)
                      (ofNat matches / ofNat (length (map Some texts)))%js)]
           else intents))
    intentKeywords 0%nat []
  = Ok (omap (intentAt texts) intentKeywords).
Proof.
  match goal with
  | |- forEach ?f ?l 0%nat ?s = _ =>
      destruct (forEach_run
                  (fun j intents => intents = omap (intentAt texts) (take j l))
                  f l 0%nat s) as (intents & -> & ->)
  end.
  - done.
  - intros intents [name keywords] k Hk ->. cbn [Nat.add].
    rewrite filterM_includesSome. cbn [mbind outcome_bind].
    eexists. split; [done|].
    rewrite (take_S_r _ _ _ Hk), omap_app, !length_map.
    fold (intentMatches texts keywords).
    assert (omap (intentAt texts) [(name, keywords)]
            = if (0 <? intentMatches texts keywords)%nat
              then [Intent name (intentMatches texts keywords)
                      (ofNat (intentMatches texts keywords)
                       / ofNat (length texts))%js]
              else []) as ->.
    { cbn [omap list_omap]. unfold intentAt. cbn [fst snd].
      by destruct (0 <? intentMatches texts keywords)%nat. }
    destruct (Nat.ltb_spec 0 (intentMatches texts keywords)) as [Hpos|_].
    + pose proof (intentMatches_le texts keywords).
      rewrite share_is_capped by lia. done.
    + by rewrite app_nil_r.
  - cbn [Nat.add]. by rewrite firstn_all.
Qed.

Lemma rankIn_middle keys pre name suf :
  NoDup keys → keys = pre ++ name :: suf → rankIn keys name = length pre.
Proof.
  intros Hnodup ->. unfold rankIn.
  assert (list_find (fun key => key = name) (pre ++ name :: suf)
          = Some (length pre, name)) as ->; [|done].
  apply list_find_Some. split_and!; [by apply list_lookup_middle|done|].
  intros j key Hkey Hj ->.
  rewrite lookup_app_l in Hkey by done.
  apply NoDup_app in Hnodup as (_ & Hdisjoint & _).
  apply (Hdisjoint name); [by eapply list_elem_of_lookup_2|by left].
Qed.

Lemma omap_ranked {A} (f : jsstring * A → option intent)
    (pre suf : list (jsstring * A)) :
  NoDup (map fst (pre ++ suf)) →
  (∀ entry i, f entry = Some i → intent_type i = entry.1) →
  StronglySorted (fun a b => (rankIn (map fst (pre ++ suf)) (intent_type a)
                              < rankIn (map fst (pre ++ suf)) (intent_type b))%nat)
                 (omap f suf)
  ∧ Forall (fun a => (length pre <= rankIn (map fst (pre ++ suf)) (intent_type a))%nat)
           (omap f suf).
Proof.
  intros Hnodup Hf. revert pre Hnodup.
  induction suf as [|entry suf IH]; intros pre Hnodup.
  - split; constructor.
  - destruct (IH (pre ++ [entry])) as [Hsorted Hfrom].
    { by rewrite <- app_assoc. }
    rewrite <- app_assoc in Hsorted, Hfrom. cbn [app] in Hsorted, Hfrom.
    rewrite length_app in Hfrom. cbn [length] in Hfrom.
    change (omap f (entry :: suf))
      with (match f entry with Some i => i :: omap f suf | None => omap f suf end).
    destruct (f entry) as [i|] eqn:Hentry.
    + assert (rankIn (map fst (pre ++ entry :: suf)) (intent_type i) = length pre)
        as Hrank.
      { rewrite (Hf _ _ Hentry).
        rewrite <- (length_map fst pre).
        apply (rankIn_middle _ _ _ (map fst suf)); [done|].
        by rewrite map_app. }
      split.
      * constructor; [done|]. rewrite Hrank.
        eapply Forall_impl; [exact Hfrom|]. cbn. intros; lia.
      * constructor; [lia|].
        eapply Forall_impl; [exact Hfrom|]. cbn. intros; lia.
    + split; [done|].
      eapply Forall_impl; [exact Hfrom|]. cbn. intros; lia.
Qed.

Lemma StronglySorted_weaken {A} (R R' : relation A) (l : list A) :
  (∀ x y, R x y → R' x y) → StronglySorted R l → StronglySorted R' l.
Proof.
  intros HR. induction 1 as [|x l Hl IH Hx]; constructor; [done|].
  eapply Forall_impl; [exact Hx|]. intros y. apply HR.
Qed.

#[local] Instance intentOrder_transitive : Transitive intentOrder.
Proof. intros a b c. unfold intentOrder. lia. Qed.

Lemma byFrequency_sortsBy (a b : intent) :
  (intentRank a < intentRank b)%nat → sortsBy intentOrder byFrequency a b.
Proof.
  intros Hrank. unfold sortsBy, byFrequency, intentOrder, ofNat.
  unfold jssub, jsneg, jsadd.
  assert (∀ n m : nat, (inject_Z (Z.of_nat n) < inject_Z (Z.of_nat m))%Q
                       ↔ (n < m)%nat) as Hlt.
  { intros n m. rewrite <- Zlt_Qlt. lia. }
  split; intros Hcmp.
  - apply jsgt_Num in Hcmp. rewrite !Qred_correct in Hcmp. left.
    apply Hlt. lra.
  - unfold jsgt in Hcmp. apply Qltb_ge in Hcmp. rewrite !Qred_correct in Hcmp.
    destruct (decide (intent_frequency b < intent_frequency a)%nat) as [|Hge];
      [by left|right]. split; [|done].
    destruct (decide (intent_frequency a < intent_frequency b)%nat) as [Hab|];
      [|lia].
    apply Hlt in Hab. lra.
Qed.

Lemma intentAt_entry texts entry i :
  intentAt texts entry = Some i →
  intent_type i = entry.1
  ∧ intent_frequency i = intentMatches texts entry.2
  ∧ (1 <= intent_frequency i)%nat
  ∧ intent_confidence i = (ofNat (intent_frequency i) / ofNat (length texts))%js.
Proof.
  unfold intentAt. cbn zeta.
  destruct (Nat.ltb_spec 0 (intentMatches texts entry.2)); [|done].
  intros [= <-]. cbn. split_and!; (done || lia).
Qed.

(** X13.  On contents that are all present, [detectIntents] returns one
    intent for each entry of [intentKeywords] with a keyword in some
    content, ordered by non-increasing frequency with ties in the order of
    the table.  The frequency is the number of contents with a keyword of
    the entry; the confidence is exactly [frequency / contents.length], a
    number in (0, 1], so [Math.min(1, ...)] never takes effect. *)
Theorem intents_are_ranked_by_frequency (texts : list jsstring) :
  ∃ intents,
    detectIntents (map Some texts) = Ok intents
    ∧ intents ≡ₚ omap (intentAt texts) intentKeywords
    ∧ StronglySorted intentOrder intents
    ∧ Forall (fun i =>
                (∃ keywords, (intent_type i, keywords) ∈ intentKeywords
                             ∧ intent_frequency i = intentMatches texts keywords)
                ∧ (1 <= intent_frequency i <= length texts)%nat
                ∧ intent_confidence i
                  = (ofNat (intent_frequency i) / ofNat (length texts))%js
                ∧ ∃ q, intent_confidence i = Num q ∧ (0 < q <= 1)%Q)
             intents.
Proof.
  unfold detectIntents. rewrite detectIntents_loop. cbn [mbind outcome_bind].
  eexists. split; [done|]. fold byFrequency.
  split; [apply sortWith_perm|]. split.
  - apply sortWith_sorted; [apply _|].
    destruct (omap_ranked (intentAt texts) [] intentKeywords) as [Hsorted _].
    { apply (bool_decide_unpack (NoDup (map fst intentKeywords))). by vm_compute. }
    { intros entry i Hi. by apply intentAt_entry in Hi as (-> & _). }
    eapply StronglySorted_weaken; [|exact Hsorted].
    intros a b Hab. by apply byFrequency_sortsBy.
  - rewrite sortWith_perm. apply Forall_forall. intros i Hi.
    apply list_elem_of_omap in Hi as ([name keywords] & Hentry & Hi).
    apply intentAt_entry in Hi as (Htype & Hfreq & Hpos & Hconf).
    cbn [fst snd] in *.
    pose proof (intentMatches_le texts keywords) as Hle.
    split_and!; [| lia | lia | done |].
    + exists keywords. by rewrite Htype.
    + rewrite Hconf.
      destruct (share_value (intent_frequency i) (length texts)) as (q & Hq & Hq01);
        [lia..|].
      exists q. split; [done|]. split; [|lra].
      rewrite ofNat_div in Hq by lia. injection Hq as <-.
      rewrite Qred_correct.
      apply Qlt_shift_div_l; [apply inject_nat_pos; lia|].
      pose proof (inject_nat_pos (intent_frequency i) ltac:(lia)). lra.
Qed.

(** ** Speakers named like inherited properties *)

(** A loop raises when one of its elements makes the step raise in every
    state that the loop can be in. *)
Lemma forEach_throws_under {S A} (I : S → Prop) (f : S → A → nat → outcome S)
    (l : list A) (i : nat) (s : S) (x : A) :
  I s →
  (∀ s y j s', I s → f s y j = Ok s' → I s') →
  x ∈ l → (∀ s j, I s → f s x j = Throw TypeError) →
  forEach f l i s = Throw TypeError.
Proof.
  intros Hs Hkeep Hx Hthrow. revert i s Hs.
  induction Hx as [x l|x y l Hx IH]; intros i s Hs; cbn [forEach].
  - by rewrite Hthrow.
  - destruct (f s y i) as [s1|[]] eqn:Hstep; cbn [mbind outcome_bind]; [|done].
    apply IH; [done|]. by eapply Hkeep.
Qed.

Section inherited.
Context `{Host}.

Lemma sentimentStep_keeps_names vars m j vars' :
  noInheritedName vars.2 → sentimentStep vars m j = Ok vars' →
  noInheritedName vars'.2.
Proof.
  destruct vars as [[[trend counts] turning] participants]. cbn [snd].
  intros Hnames. unfold sentimentStep.
  destruct (content m) as [text|]; cbn [mbind outcome_bind receiver]; [|done].
  destruct (pushUnder _ _ participants) as [participants'|] eqn:Hpush;
    cbn [mbind outcome_bind]; [|done].
  match goal with
  | |- context [mbind _ ?turn] =>
    destruct turn as [turning'|]; cbn [mbind outcome_bind]; [|done]
  end.
  intros [= <-]. cbn [snd]. intros key Hkey.
  destruct (decide (propertyKey (speaker m) = key)) as [Heq|Hne].
  - rewrite (pushUnder_inherited (propertyKey (speaker m))) in Hpush; [done| |].
    + by rewrite Heq.
    + rewrite Heq. by apply Hnames.
  - apply pushUnder_Ok in Hpush as ->. rewrite lookup_insert_ne by done.
    by apply Hnames.
Qed.

Lemma sentimentStep_rejects vars m j :
  rejected m → noInheritedName vars.2 →
  sentimentStep vars m j = Throw TypeError.
Proof.
  destruct vars as [[[trend counts] turning] participants]. cbn [snd].
  intros Hm Hnames. unfold sentimentStep.
  destruct (content m) as [text|] eqn:Htext;
    cbn [mbind outcome_bind receiver]; [|done].
  destruct Hm as [Hm|Hm]; [congruence|].
  rewrite pushUnder_inherited; [done..|]. by apply Hnames.
Qed.

(** X14.  [analyzeSentiment] raises a [TypeError] exactly when some turn of
    the conversation has no content or has a speaker named like a property
    that [participantsSentiment] inherits from [Object.prototype], such as
    [constructor] or [toString]: the inherited value is taken for the
    speaker's array, and it has no [push]. *)
Theorem sentiment_analysis_rejects_inherited_names (dialogue : list message) :
  analyzeSentiment dialogue = Throw TypeError
  ↔ ∃ m, m ∈ dialogue
         ∧ (content m = None ∨ propertyKey (speaker m) ∈ inheritedKeys).
Proof.
  split.
  - intros Hthrow.
    destruct (decide (Exists rejected dialogue)) as [Hsome|Hnone].
    { apply Exists_exists in Hsome as (m & Hm & Hrejected). by exists m. }
    apply not_Exists_Forall in Hnone; [|apply _].
    rewrite Forall_forall in Hnone.
    assert (wellFormed dialogue) as Hwf.
    { intros m Hm. specialize (Hnone m Hm). unfold rejected in Hnone. cbn in Hnone.
      destruct (content m); [by eexists|]. exfalso. apply Hnone. by left. }
    assert (plainSpeakers dialogue) as Hplain.
    { intros m Hm Hkey. apply (Hnone m Hm). by right. }
    destruct (analyzeSentiment_loop dialogue Hwf Hplain) as (vars & Hloop & _).
    unfold analyzeSentiment in Hthrow. rewrite Hloop in Hthrow.
    cbn [mbind outcome_bind] in Hthrow.
    by destruct vars as [[[trend counts] turning] participants].
  - intros (m & Hm & Hrejected). unfold analyzeSentiment.
    rewrite (forEach_throws_under (fun vars => noInheritedName vars.2)
               sentimentStep dialogue 0%nat _ m); [done| | |done|].
    + intros key Hkey. apply lookup_empty.
    + intros vars y j vars' Hnames Hstep.
      by eapply sentimentStep_keeps_names.
    + intros vars j Hnames. by apply sentimentStep_rejects.
Qed.
End inherited.
